(** * hackmud-script-manager: the synchronisation engine of [src/index.ts]

    A shallow embedding of [push], [watch], [pull], [syncMacros], [test],
    [hackmudLength] and the text replacements of [processScript], and the
    properties of the specification that concern them.

    Conventions of the model.
    - A JavaScript string is a sequence of UTF-16 code units; the model
      uses [string] and so covers texts whose code units are below 256.
    - Node's [path] functions [extname], [basename] and [resolve] are
      written out for the relative, separator-free names that [readdir]
      and the watcher hand to the engine.
    - The file system is a snapshot ([Disk]); directory scans and reads
      succeed.  The transformation pipeline behind [processScript]
      (TypeScript, terser, prettier) and the duration of every
      asynchronous operation are parameters ([Host]).
    - A promise is represented by the logical time at which it settles. *)

From Stdlib Require Import Ascii String List Arith Bool Lia.
From Stdlib Require Import Sorted Permutation.
From Stdlib Require OrderedTypeEx.
From stdpp Require Import gmap strings list fin_maps.
Import ListNotations.

(** ** Strings *)

Definition LF : ascii := "010"%char.
Definition CR : ascii := "013"%char.
Definition SP : ascii := " "%char.
Definition DOT : ascii := "."%char.
Definition SLASH : ascii := "/"%char.

(** [s.split(sep)] for a one-character separator. *)
Fixpoint splitBy (sep : ascii) (s : string) : list string :=
  match s with
  | EmptyString => [EmptyString]
  | String c s' =>
      if Ascii.eqb c sep then EmptyString :: splitBy sep s'
      else match splitBy sep s' with
           | l :: ls => String c l :: ls
           | [] => [String c EmptyString]
           end
  end.

(** [s.length] and [s.slice(n)] / [s.slice(0, n)]. *)
Definition sliceFrom (n : nat) (s : string) : string :=
  String.substring n (String.length s - n) s.

Definition sliceTo (n : nat) (s : string) : string :=
  String.substring 0 n s.

Definition endsWith (s suffix : string) : bool :=
  (String.length suffix <=? String.length s)
  && String.eqb (sliceFrom (String.length s - String.length suffix) s) suffix.

Definition isEmpty (s : string) : bool :=
  match s with EmptyString => true | _ => false end.

(** Index of the last ["."] of a name. *)
Fixpoint lastDot (s : string) : option nat :=
  match s with
  | EmptyString => None
  | String c s' =>
      match lastDot s' with
      | Some i => Some (S i)
      | None => if Ascii.eqb c DOT then Some 0 else None
      end
  end.

(** ** Node's [path] module *)

(** The last portion of a path: trailing separators are ignored. *)
Definition lastPart (path : string) : string :=
  List.last (List.filter (fun p => negb (isEmpty p)) (splitBy SLASH path)) EmptyString.

(** [extname(path)]: from the last ["."] of the last portion to its end;
    empty when there is no dot, when the only dot is the first character,
    and for [".."]. *)
Definition extname (path : string) : string :=
  let part := lastPart path in
  match lastDot part with
  | None => EmptyString
  | Some 0 => EmptyString
  | Some i => if String.eqb part ".." then EmptyString else sliceFrom i part
  end.

(** [basename(path, ext)]: the last portion, without [ext] when it ends
    with it (and is not [ext] itself). *)
Definition basename (path ext : string) : string :=
  let part := lastPart path in
  if isEmpty ext then part
  else if String.eqb ext path then EmptyString
  else if endsWith part ext && (String.length ext <? String.length part)
       then sliceTo (String.length part - String.length ext) part
       else part.

(** [resolvePath(root, ...segments)]: paths are kept as the list of
    segments below the root they are resolved against. *)
Definition Path := list string.

(** ** [hackmudLength] *)

(** [script.replace(/[ \n\r]/g, "")]. *)
Fixpoint stripBlanks (script : string) : string :=
  match script with
  | EmptyString => EmptyString
  | String c s' =>
      if Ascii.eqb c SP || Ascii.eqb c LF || Ascii.eqb c CR
      then stripBlanks s'
      else String c (stripBlanks s')
  end.

Definition hackmudLength (script : string) : nat :=
  String.length (stripBlanks script).

(** The specification's wording of the same quantity: the number of
    characters that are neither a space, a newline nor a carriage
    return. *)
Definition isBlank (c : ascii) : bool :=
  Ascii.eqb c SP || Ascii.eqb c LF || Ascii.eqb c CR.

Definition countNonBlank (script : string) : nat :=
  length (List.filter (fun c => negb (isBlank c)) (list_ascii_of_string script)).

(** ** The data of the engine *)

(** A directory entry as returned by [readDir(..., { withFileTypes: true })]. *)
Inductive EntryKind := RegularFile | Directory | OtherEntry.

Record Dirent := { name : string; kind : EntryKind }.

Definition isFile (entry : Dirent) : bool :=
  match kind entry with RegularFile => true | _ => false end.

Definition isDirectory (entry : Dirent) : bool :=
  match kind entry with Directory => true | _ => false end.

(** Logical time, in ticks. *)
Definition Time := nat.

(** The two roots paths are resolved against, and the asynchronous
    operations whose duration the host decides. *)
Inductive Root := SrcDir | HackmudDir.

Inductive Op :=
| ReadDir (root : Root) (path : Path)
| ReadFile (root : Root) (path : Path)
| ProcessScript (script : string)
| WriteFile (path : Path).

(** What [processScript] settles to. *)
Inductive Settled := Resolved (text : string) | Rejected (reason : string).

Record Host := {
  processScript : string -> Settled;
  latency : Op -> Time
}.

(** A snapshot of the source tree and of the hackmud directory. *)
Record Disk := {
  srcRoot : list Dirent;            (* readDir(srcDir) *)
  srcSub : string -> list Dirent;   (* readDir(resolvePath(srcDir, user)) *)
  srcText : Path -> string;         (* readFile(resolvePath(srcDir, ...)) *)
  hackmudRoot : list Dirent;        (* readDir(hackmudDir) *)
  hackmudText : string -> string;   (* readFile(resolvePath(hackmudPath, file.name)) *)
  mtime : string -> Time            (* stat(resolvePath(hackmudPath, file.name)).mtime *)
}.

(** The value of [Info.error]: [null] is [None]; otherwise the reason
    [processScript] rejected with (a thrown [Error], hence truthy) or the
    [Error] the engine creates itself. *)
Inductive Failure := Reason (reason : string) | NewError (message : string).

Record Info := {
  file : string;
  users : list string;
  minLength : nat;
  error : option Failure
}.

Definition setMinLength (info : Info) (n : nat) : Info :=
  {| file := file info; users := users info; minLength := n; error := error info |}.

Definition setError (info : Info) (e : Failure) : Info :=
  {| file := file info; users := users info; minLength := minLength info; error := Some e |}.

Definition setUsers (info : Info) (us : list string) : Info :=
  {| file := file info; users := us; minLength := minLength info; error := error info |}.

(** A call of [writeFilePersist] on a path below the hackmud directory,
    with the time at which its promise settles. *)
Record FileWrite := {
  target : Path;
  data : string;
  settledAt : Time
}.

(** What one processed source file leaves behind: the [Info] pushed to
    [infoAll] (in its final state: the object is shared and mutated after
    the push) and the writes its callback issued.  [source] is the path
    given to [readFile], below [srcDir]. *)
Record Outcome := {
  source : Path;
  info : Info;
  writes : list FileWrite
}.

Definition supportedExtensions : list string := [".js"; ".ts"].

(** [l.includes(x)] *)
Definition includes (l : list string) (x : string) : bool :=
  existsb (String.eqb x) l.

(** [!filter.length || filter.includes(x)] *)
Definition wanted (filter : list string) (x : string) : bool :=
  match filter with [] => true | _ => includes filter x end.

(** [resolvePath(hackmudDir, user, "scripts", `${name}.js`)] *)
Definition scriptPath (user name : string) : Path :=
  [user; "scripts"; name +:+ ".js"].

(** [writeFilePersist(path, data)], called at [now]; the creation of a
    missing parent folder and the second attempt are part of the one
    operation. *)
Definition writeFilePersist (h : Host) (now : Time) (path : Path) (text : string)
  : FileWrite :=
  {| target := path; data := text; settledAt := now + latency h (WriteFile path) |}.

(** [await processScript(code).catch(reason => { error = reason; return "" })] *)
Definition transform (h : Host) (code : string) : option Failure * string :=
  match processScript h code with
  | Resolved text => (None, text)
  | Rejected reason => (Some (Reason reason), EmptyString)
  end.

(** [Promise.all(promises)], joined at time [now]. *)
Definition allSettled (now : Time) (promises : list Time) : Time :=
  fold_left Nat.max promises now.

(** ** [push] *)

(** The map [skips] and the outcomes gathered so far. *)
Record PushState := {
  skips : gmap string (list string);
  processed : list Outcome
}.

(** Lines 47-52: [skip.push(user)] or [skips.set(name, [ user ])]. *)
Definition addSkip (skips : gmap string (list string)) (name user : string)
  : gmap string (list string) :=
  match skips !! name with
  | Some skip => <[name := skip ++ [user]]> skips
  | None => <[name := [user]]> skips
  end.

(** Lines 54-75: the chain started by [readFile] for a private script at
    time [now].  Nothing keeps the promise of this chain. *)
Definition pushPrivate (h : Host) (d : Disk) (now : Time)
    (user : string) (entry : Dirent) (name' : string) : Outcome :=
  let src := [user; name entry] in
  let code := srcText d src in
  let t1 := now + latency h (ReadFile SrcDir src) in
  let '(error, minCode) := transform h code in
  let t2 := t1 + latency h (ProcessScript code) in
  let info := {| file := user +:+ "/" +:+ name entry; users := [user];
                 minLength := 0; error := error |} in
  match error with
  | None =>
      if isEmpty minCode
      then {| source := src;
              info := setError info (NewError "processed script was empty");
              writes := [] |}
      else {| source := src;
              info := setMinLength info (hackmudLength minCode);
              writes := [writeFilePersist h t2 (scriptPath user name') minCode] |}
  | Some _ => {| source := src; info := info; writes := [] |}
  end.

(** Lines 42-77: the callback of [readDir] on a user's folder, run at
    time [now]. *)
Definition scanUserDir (h : Host) (d : Disk) (scripts : list string)
    (now : Time) (user : string) (st : PushState) : PushState :=
  fold_left
    (fun st entry =>
       let extension := extname (name entry) in
       let name' := basename (name entry) extension in
       if includes supportedExtensions extension && isFile entry
          && wanted scripts name'
       then {| skips := addSkip (skips st) name' user;
               processed := processed st ++ [pushPrivate h d now user entry name'] |}
       else st)
    (srcSub d user) st.

(** Lines 37-80: the loop over the entries of [srcDir], started at [t0];
    it yields the state and the promises of the folder scans. *)
Definition scanUsers (h : Host) (d : Disk) (users scripts : list string)
    (t0 : Time) : PushState * list Time :=
  fold_left
    (fun '(st, promises) dir =>
       let user := name dir in
       if isDirectory dir && wanted users user
       then let settled := t0 + latency h (ReadDir SrcDir [user]) in
            (scanUserDir h d scripts settled user st, promises ++ [settled])
       else (st, promises))
    (srcRoot d) ({| skips := ∅; processed := [] |}, []).

(** Lines 83-85 (and 203-205): the users with a [.key] file. *)
Definition keyUsers (d : Disk) : list string :=
  map (fun a => basename (name a) ".key")
      (List.filter (fun a => isFile a && String.eqb (extname (name a)) ".key")
                   (hackmudRoot d)).

(** Lines 116-120 (and 207-211): the loop over [users] for a global
    script; it yields [info.users] and the writes issued. *)
Definition deployGlobal (h : Host) (now : Time) (name' minCode : string)
    (skip users : list string) : list string * list FileWrite :=
  fold_left
    (fun '(targets, promises) user =>
       if negb (includes skip user)
       then (targets ++ [user],
             promises ++ [writeFilePersist h now (scriptPath user name') minCode])
       else (targets, promises))
    users ([], []).

(** Lines 98-127: the chain started by [readFile] for a global script at
    time [now]; its promise settles when the callback returns, that is
    once the writes are issued ([promises] of line 114 is not awaited). *)
Definition pushGlobal (h : Host) (d : Disk) (skips : gmap string (list string))
    (users : list string) (now : Time) (entry : Dirent) (name' : string)
  : Outcome * Time :=
  let src := [name entry] in
  let code := srcText d src in
  let t1 := now + latency h (ReadFile SrcDir src) in
  let '(error, minCode) := transform h code in
  let t2 := t1 + latency h (ProcessScript code) in
  let info := {| file := name entry; users := []; minLength := 0; error := error |} in
  (match error with
   | None =>
       if isEmpty minCode
       then {| source := src;
               info := setError info (NewError "processed script was empty");
               writes := [] |}
       else
         let skip := default [] (skips !! name') in
         let '(targets, promises) := deployGlobal h t2 name' minCode skip users in
         {| source := src;
            info := setUsers (setMinLength info (hackmudLength minCode)) targets;
            writes := promises |}
   | Some _ => {| source := src; info := info; writes := [] |}
   end, t2).

(** Lines 90-131: the loop over the files of [srcDir], run at [now]. *)
Definition pushGlobals (h : Host) (d : Disk) (skips : gmap string (list string))
    (users scripts : list string) (now : Time) : list Outcome * list Time :=
  fold_left
    (fun '(outs, promises) entry =>
       if isFile entry then
         let extension := extname (name entry) in
         if includes supportedExtensions extension then
           let name' := basename (name entry) extension in
           if wanted scripts name' then
             let '(o, p) := pushGlobal h d skips users now entry name' in
             (outs ++ [o], promises ++ [p])
           else (outs, promises)
         else (outs, promises)
       else (outs, promises))
    (srcRoot d) ([], []).

(** The run of [push]: every processed file, in program order, with
    what its callback does once it has run to its end, and the time at
    which the returned promise resolves.  The order of [infoAll] depends
    on the order in which reads settle, and the callback of a private
    script may push its [Info] after the promise has resolved; no
    property below depends on either. *)
Record PushRun := {
  outcomes : list Outcome;
  resolvedAt : Time
}.

Definition infoAll (run : PushRun) : list Info := map info (outcomes run).

Definition push (h : Host) (d : Disk) (users scripts : list string) : PushRun :=
  let t0 := latency h (ReadDir SrcDir []) in
  let '(st, promises) := scanUsers h d users scripts t0 in
  let '(users', t1) :=
    match users with
    | [] => (keyUsers d, t0 + latency h (ReadDir HackmudDir []))
    | _ => (users, t0)
    end in
  let t2 := allSettled t1 promises in
  let '(globals, promises') := pushGlobals h d (skips st) users' scripts t2 in
  {| outcomes := processed st ++ globals;
     resolvedAt := allSettled t2 promises' |}.

(** ** [watch] *)

(** Lines 164-184: the rescan of every user folder on a change of a
    global script, started at [now]. *)
Definition scanOverrides (h : Host) (d : Disk) (now : Time)
  : gmap string (list string) * list Time :=
  fold_left
    (fun '(skips, promisesSkips) dir =>
       if isDirectory dir
       then (fold_left
               (fun skips entry =>
                  if isFile entry then
                    let ext := extname (name entry) in
                    if includes supportedExtensions ext
                    then addSkip skips (basename (name entry) ext) (name dir)
                    else skips
                  else skips)
               (srcSub d (name dir)) skips,
             promisesSkips ++ [now + latency h (ReadDir SrcDir [name dir])])
       else (skips, promisesSkips))
    (srcRoot d) (∅, []).

(** Lines 156-223, [case 1]: a file of [srcDir] itself changed.  The
    result is the new value of the variable [users], which the handler
    assigns and later events see, and the outcome, if the file is
    processed. *)
Definition changeGlobal (h : Host) (d : Disk) (scripts : list string)
    (now : Time) (users : list string) (path name' : string)
  : list string * option Outcome :=
  let file' := path in
  if wanted scripts name' then
    let code := srcText d [file'] in
    let t1 := now + latency h (ReadFile SrcDir [file']) in
    let t2 := t1 + latency h (ReadDir SrcDir []) in
    let '(skips, promisesSkips) := scanOverrides h d t2 in
    let t3 := allSettled t2 promisesSkips in
    let '(error, minCode) := transform h code in
    let t4 := t3 + latency h (ProcessScript code) in
    let info := {| file := file'; users := []; minLength := 0; error := error |} in
    match error with
    | None =>
        if isEmpty minCode
        then (users,
              Some {| source := [file'];
                      info := setError info (NewError "processed script was empty");
                      writes := [] |})
        else
          let skip := default [] (skips !! name') in
          let '(users', t5) :=
            match users with
            | [] => (keyUsers d, t4 + latency h (ReadDir HackmudDir []))
            | _ => (users, t4)
            end in
          let '(targets, promises) := deployGlobal h t5 name' minCode skip users' in
          (users',
           Some {| source := [file'];
                   info := setUsers (setMinLength info (hackmudLength minCode)) targets;
                   writes := promises |})
    | Some _ => (users, Some {| source := [file']; info := info; writes := [] |})
    end
  else (users, None).

(** Lines 225-260, [case 2]: a file of a user's folder changed; [user] is
    [parts[0]].  The loop of lines 246-247 has [info.users.push(user)] as
    its whole body; line 248 follows the loop, where [user] is again the
    owner. *)
Definition changePrivate (h : Host) (d : Disk) (scripts : list string)
    (now : Time) (users : list string) (path name' : string)
    (parts : list string) (user : string)
  : list string * option Outcome :=
  if wanted users user && wanted scripts name' then
    let code := srcText d parts in
    let t1 := now + latency h (ReadFile SrcDir parts) in
    let '(error, minCode) := transform h code in
    let t2 := t1 + latency h (ProcessScript code) in
    let info := {| file := path; users := [user]; minLength := 0; error := error |} in
    match error with
    | None =>
        if isEmpty minCode
        then (users,
              Some {| source := parts;
                      info := setError info (NewError "processed script was empty");
                      writes := [] |})
        else
          let pushed :=
            fold_left (fun targets user' => targets ++ [user']) users [user] in
          (users,
           Some {| source := parts;
                   info := setUsers (setMinLength info (hackmudLength minCode)) pushed;
                   writes := [writeFilePersist h t2 (scriptPath user name') minCode] |})
    | Some _ => (users, Some {| source := parts; info := info; writes := [] |})
    end
  else (users, None).

(** Lines 148-263: the handler of one ["change"] event at time [now]. *)
Definition onChange (h : Host) (d : Disk) (scripts : list string)
    (now : Time) (users : list string) (path : string)
  : list string * option Outcome :=
  let extension := extname path in
  if includes supportedExtensions extension then
    let name' := basename path extension in
    let parts := splitBy SLASH path in
    match parts with
    | [_] => changeGlobal h d scripts now users path name'
    | [user; _] => changePrivate h d scripts now users path name' parts user
    | _ => (users, None)
    end
  else (users, None).

(** [watch] as a machine: the events arrive one after the other, each
    with the disk as it is then and the time it is handled; the variable
    [users] is threaded from one event to the next. *)
Fixpoint watch (h : Host) (users scripts : list string)
    (events : list (Disk * Time * string)) : list (option Outcome) :=
  match events with
  | [] => []
  | (d, now, path) :: rest =>
      let '(users', out) := onChange h d scripts now users path in
      out :: watch h users' scripts rest
  end.

(** ** [syncMacros] *)

(** The values of the map [macros]. *)
Record MacroEntry := { macro : string; date : Time }.

(** [Map<string, ...>] with its insertion order, which [[ ...macros ]]
    exposes. *)
Fixpoint mapGet {V : Type} (m : list (string * V)) (key : string) : option V :=
  match m with
  | [] => None
  | (k, v) :: m' => if String.eqb k key then Some v else mapGet m' key
  end.

Fixpoint mapSet {V : Type} (m : list (string * V)) (key : string) (v : V)
  : list (string * V) :=
  match m with
  | [] => [(key, v)]
  | (k, v0) :: m' =>
      if String.eqb k key then (k, v) :: m' else (k, v0) :: mapSet m' key v
  end.

(** Lines 291-295: the body of the loop for the pair [macroName], [body]
    of a file last modified at [date']. *)
Definition considerMacro (macros : list (string * MacroEntry))
    (macroName body : string) (date' : Time) : list (string * MacroEntry) :=
  match mapGet macros macroName with
  | None => mapSet macros macroName {| macro := body; date := date' |}
  | Some curMacro =>
      if date curMacro <? date'
      then mapSet macros macroName {| macro := body; date := date' |}
      else macros
  end.

(** Lines 290-296: [for (let i = 0; i < lines.length / 2 - 1; i++)]; the
    test [i < lines.length / 2 - 1] is [2 * i + 2 < lines.length]. *)
Fixpoint readPairs (fuel i : nat) (lines : list string) (date' : Time)
    (macros : list (string * MacroEntry)) : list (string * MacroEntry) :=
  match fuel with
  | 0 => macros
  | S fuel' =>
      if 2 * i + 2 <? length lines
      then readPairs fuel' (S i) lines date'
             (considerMacro macros (nth (i * 2) lines EmptyString)
                (nth (i * 2 + 1) lines EmptyString) date')
      else macros
  end.

Definition readMacroFile (text : string) (date' : Time)
    (macros : list (string * MacroEntry)) : list (string * MacroEntry) :=
  let lines := splitBy LF text in
  readPairs (length lines) 0 lines date' macros.

(** Lines 283-306: the loop over the files of the hackmud directory. *)
Definition scanMacros (d : Disk) : list (string * MacroEntry) * list string :=
  fold_left
    (fun '(macros, users) entry =>
       if isFile entry then
         let ext := extname (name entry) in
         if String.eqb ext ".macros"
         then (readMacroFile (hackmudText d (name entry)) (mtime d (name entry)) macros,
               users)
         else if String.eqb ext ".key"
         then (macros, users ++ [basename (name entry) ".key"])
         else (macros, users)
       else (macros, users))
    (hackmudRoot d) ([], []).

(** [c.toLowerCase()] on a code unit below 256. *)
Definition toLowerCase (c : ascii) : ascii :=
  let n := nat_of_ascii c in
  if ((65 <=? n) && (n <=? 90))
     || ((192 <=? n) && (n <=? 214))
     || ((216 <=? n) && (n <=? 222))
  then ascii_of_nat (n + 32)
  else c.

(** Line 311: [.sort(([ a ], [ b ]) => (a > b) - (a < b))], a stable sort
    by key in code-unit order. *)
Fixpoint insertByName {V : Type} (e : string * V) (l : list (string * V))
  : list (string * V) :=
  match l with
  | [] => [e]
  | x :: l' =>
      if String.leb (fst e) (fst x) then e :: x :: l' else x :: insertByName e l'
  end.

Definition sortByName {V : Type} (l : list (string * V)) : list (string * V) :=
  fold_right insertByName [] l.

(** Line 312: [macro[0] == macro[0].toLowerCase()]; [None] is the
    [TypeError] raised when [macro] is empty and [macro[0]] undefined. *)
Definition startsLower (macro' : string) : option bool :=
  match macro' with
  | EmptyString => None
  | String c _ => Some (Ascii.eqb c (toLowerCase c))
  end.

(** Lines 308-315: the loop that builds [macroFile] and counts. *)
Fixpoint mergeMacros (sorted : list (string * MacroEntry))
    (macroFile : string) (macrosSynced : nat) : option (string * nat) :=
  match sorted with
  | [] => Some (macroFile, macrosSynced)
  | (name', entry) :: rest =>
      match startsLower (macro entry) with
      | None => None
      | Some true =>
          mergeMacros rest
            (macroFile +:+ name' +:+ String LF (macro entry +:+ String LF EmptyString))
            (S macrosSynced)
      | Some false => mergeMacros rest macroFile macrosSynced
      end
  end.

Record MacroSync := {
  macroFile : string;                (* the merged text *)
  written : list (Path * string);    (* writeFile(resolvePath(hackmudPath, user + ".macros"), macroFile) *)
  macrosSynced : nat;
  usersSynced : nat
}.

(** [syncMacros(hackmudPath)]; [None] when the call throws. *)
Definition syncMacros (d : Disk) : option MacroSync :=
  let '(macros, users) := scanMacros d in
  match mergeMacros (sortByName macros) EmptyString 0 with
  | None => None
  | Some (text, count) =>
      Some {| macroFile := text;
              written := map (fun user => ([user +:+ ".macros"], text)) users;
              macrosSynced := count;
              usersSynced := length users |}
  end.

(** ** The vocabulary of the specification *)

(** The effective user set: the user filter when it is not empty,
    otherwise the users with an identity marker. *)
Definition effectiveUsers (d : Disk) (users : list string) : list string :=
  match users with [] => keyUsers d | _ => users end.

(** A script file: a regular file with a supported extension; its logical
    name is its name without the extension. *)
Definition isScript (entry : Dirent) : bool :=
  isFile entry && includes supportedExtensions (extname (name entry)).

Definition logicalName (entry : Dirent) : string :=
  basename (name entry) (extname (name entry)).

(** [user] holds a private override for the logical name [n]: the source
    root has a folder [user] with a script of that name directly in it. *)
Definition overrides (d : Disk) (user n : string) : bool :=
  existsb (fun dir => isDirectory dir && String.eqb (name dir) user) (srcRoot d)
  && existsb (fun entry => isScript entry && String.eqb (logicalName entry) n)
       (srcSub d user).

(** The transformation of a text failed, or left nothing. *)
Definition transformFails (h : Host) (code : string) : bool :=
  match processScript h code with
  | Resolved text => isEmpty text
  | Rejected _ => true
  end.

(** The users to whose deployment path of [n] an outcome wrote. *)
Definition writtenTo (o : Outcome) (n user : string) : Prop :=
  In (scriptPath user n) (map target (writes o)).

(** The outcomes of a run for the source file at [src]. *)
Definition outcomesOf (run : PushRun) (src : Path) : list Outcome :=
  List.filter (fun o => bool_decide (source o = src)) (outcomes run).

(** The text of a macro file holding the given pairs, every line ended
    by a newline: the form in which [syncMacros] writes them. *)
Fixpoint macroText (pairs : list (string * string)) : string :=
  match pairs with
  | [] => EmptyString
  | (n, b) :: rest => n +:+ String LF (b +:+ String LF (macroText rest))
  end.

(** The lines of a text taken two by two; a last line without partner is
    left out. *)
Fixpoint pairUp (lines : list string) : list (string * string) :=
  match lines with
  | n :: b :: rest => (n, b) :: pairUp rest
  | _ => []
  end.

(** The candidate records a macro file contributes, in the order of the
    scan: the pairs the loop of lines 290-296 visits. *)
Definition fileRecords (text : string) : list (string * string) :=
  let lines := splitBy LF text in
  firstn ((length lines - 1) / 2) (pairUp lines).

Definition hasNewline (s : string) : bool :=
  existsb (Ascii.eqb LF) (list_ascii_of_string s).

(** The records kept by the filter of line 312, and their text. *)
Definition keptMacros (sorted : list (string * MacroEntry))
  : list (string * MacroEntry) :=
  List.filter (fun e => match startsLower (macro (snd e)) with
                        | Some true => true
                        | _ => false
                        end) sorted.

Definition macroBlocks (kept : list (string * MacroEntry)) : string :=
  macroText (map (fun e => (fst e, macro (snd e))) kept).

(** The filter as the specification words it: on the first character of
    the name. *)
Definition nameStartsLower (name' : string) : bool :=
  match name' with
  | EmptyString => false
  | String c _ => Ascii.eqb c (toLowerCase c)
  end.

(** The candidate records of a hackmud directory, in the order of the
    scan: the pairs of every macro file with the modification time of
    the file. *)
Definition isMacroFile (entry : Dirent) : bool :=
  isFile entry && String.eqb (extname (name entry)) ".macros".

Definition candidates (d : Disk) : list (string * string * Time) :=
  flat_map (fun entry =>
              if isMacroFile entry
              then map (fun p => (fst p, snd p, mtime d (name entry)))
                     (fileRecords (hackmudText d (name entry)))
              else [])
    (hackmudRoot d).

Definition consider (macros : list (string * MacroEntry))
    (r : string * string * Time) : list (string * MacroEntry) :=
  considerMacro macros (fst (fst r)) (snd (fst r)) (snd r).

Definition noNewline (pairs : list (string * string)) : bool :=
  forallb (fun p => negb (hasNewline (fst p)) && negb (hasNewline (snd p))) pairs.

(** The number of spaces, newlines and carriage returns of a text. *)
Definition countBlank (script : string) : nat :=
  length (List.filter isBlank (list_ascii_of_string script)).

(** The outcomes the engine reports on a disk: those of a run of [push]
    and those of a ["change"] event handled by [watch]. *)
Inductive reported (h : Host) (d : Disk) : Outcome -> Prop :=
| reported_by_push (userFilter scripts : list string) (o : Outcome) :
    In o (outcomes (push h d userFilter scripts)) -> reported h d o
| reported_by_watch (scripts : list string) (now : Time)
    (userFilter : list string) (path : string) (users' : list string)
    (o : Outcome) :
    onChange h d scripts now userFilter path = (users', Some o) ->
    reported h d o.

(** ** Sample worlds *)

Definition aFile (n : string) : Dirent := {| name := n; kind := RegularFile |}.
Definition aFolder (n : string) : Dirent := {| name := n; kind := Directory |}.

(** A source tree with the global scripts [foo.ts], [bad.js] and
    [empty.js], the overrides [alice/foo.ts] and [carol/foo.js], and a
    hackmud directory that knows [alice], [bob] and [carol]. *)
Definition sampleDisk : Disk := {|
  srcRoot := [aFile "foo.ts"; aFolder "alice"; aFile "bad.js"; aFolder "carol";
              aFile "empty.js"];
  srcSub := fun user =>
    if String.eqb user "alice" then [aFile "foo.ts"]
    else if String.eqb user "carol" then [aFile "foo.js"]
    else [];
  srcText := fun path =>
    match path with
    | ["foo.ts"] => "function () { return 1 }"
    | ["alice"; "foo.ts"] => "function () { return 2 }"
    | ["carol"; "foo.js"] => "function ( {"
    | ["bad.js"] => "function ( {"
    | _ => ""
    end;
  hackmudRoot := [aFile "alice.key"; aFile "bob.key"; aFile "carol.key"];
  hackmudText := fun _ => "";
  mtime := fun _ => 0
|}.

(** A host whose pipeline rejects the text ["function ( {"] and returns
    every other text as it is, and on which a write takes one tick and
    everything else none. *)
Definition sampleHost : Host := {|
  processScript := fun code =>
    if String.eqb code "function ( {" then Rejected "SyntaxError"
    else Resolved code;
  latency := fun op => match op with WriteFile _ => 1 | _ => 0 end
|}.

(** The same pipeline on a host where listing a directory takes two
    ticks, reading a file three, the transformation five and a write
    seven. *)
Definition slowHost : Host := {|
  processScript := processScript sampleHost;
  latency := fun op => match op with
                       | ReadDir _ _ => 2
                       | ReadFile _ _ => 3
                       | ProcessScript _ => 5
                       | WriteFile _ => 7
                       end
|}.

(** A hackmud directory with one macro file and one user. *)
Definition macroDisk (text : string) : Disk := {|
  srcRoot := []; srcSub := fun _ => []; srcText := fun _ => "";
  hackmudRoot := [aFile "alice.macros"; aFile "alice.key"];
  hackmudText := fun _ => text;
  mtime := fun _ => 1
|}.

(** Two macro files, [first] scanned before [second], with their
    modification times. *)
Definition twoMacroFiles (first : string) (t1 : Time) (second : string) (t2 : Time)
  : Disk := {|
  srcRoot := []; srcSub := fun _ => []; srcText := fun _ => "";
  hackmudRoot := [aFile "alice.macros"; aFile "bob.macros"; aFile "alice.key"];
  hackmudText := fun n => if String.eqb n "alice.macros" then first else second;
  mtime := fun n => if String.eqb n "alice.macros" then t1 else t2
|}.

(** What [push] without filters leaves behind for the global [foo.ts] of
    [sampleDisk] on [sampleHost]. *)
Definition sampleOutcome : Outcome := {|
  source := ["foo.ts"];
  info := {| file := "foo.ts"; users := ["bob"]; minLength := 19; error := None |};
  writes := [{| target := ["bob"; "scripts"; "foo.js"];
                data := "function () { return 1 }";
                settledAt := 1 |}]
|}.

(** What it leaves behind for the private [alice/foo.ts]. *)
Definition samplePrivateOutcome : Outcome := {|
  source := ["alice"; "foo.ts"];
  info := {| file := "alice/foo.ts"; users := ["alice"]; minLength := 19;
             error := None |};
  writes := [{| target := ["alice"; "scripts"; "foo.js"];
                data := "function () { return 2 }";
                settledAt := 1 |}]
|}.

(** A macro file without its last newline. *)
Definition unterminated : string :=
  "alpha" +:+ String LF ("x" +:+ String LF ("beta" +:+ String LF "y")).

(** ** Auxiliary notions for the proofs *)

(** [skips.get(name) || []] *)
Definition skipOf (skips : gmap string (list string)) (n : string) : list string :=
  default [] (skips !! n).

(** A script that passes the script filter. *)
Definition wantedScript (scripts : list string) (entry : Dirent) : bool :=
  isScript entry && wanted scripts (logicalName entry).

(** A folder that passes the user filter. *)
Definition wantedFolder (users : list string) (dir : Dirent) : bool :=
  isDirectory dir && wanted users (name dir).

(** The owners [push] registers for [n] while it scans one folder. *)
Definition ownersIn (d : Disk) (scripts : list string) (n user : string)
  : list string :=
  map (fun _ => user)
    (List.filter (fun e => wantedScript scripts e && String.eqb (logicalName e) n)
       (srcSub d user)).

(** The outcomes of the private scripts of one folder, scanned at [now]. *)
Definition privateOf (h : Host) (d : Disk) (scripts : list string) (now : Time)
    (user : string) : list Outcome :=
  map (fun e => pushPrivate h d now user e (logicalName e))
    (List.filter (wantedScript scripts) (srcSub d user)).

(** The time at which the scan of a user's folder settles. *)
Definition scannedAt (h : Host) (t0 : Time) (dir : Dirent) : Time :=
  t0 + latency h (ReadDir SrcDir [name dir]).

(** The outcomes of all private scripts, and the owners registered for
    [n], over the folders [dirs]. *)
Definition privateAmong (h : Host) (d : Disk) (users scripts : list string)
    (t0 : Time) (dirs : list Dirent) : list Outcome :=
  flat_map (fun dir => if wantedFolder users dir
                       then privateOf h d scripts (scannedAt h t0 dir) (name dir)
                       else []) dirs.

Definition ownersAmong (d : Disk) (users scripts : list string) (n : string)
    (dirs : list Dirent) : list string :=
  flat_map (fun dir => if wantedFolder users dir
                       then ownersIn d scripts n (name dir)
                       else []) dirs.

(** The outcomes of the global scripts, pushed at [now]. *)
Definition globalOf (h : Host) (d : Disk) (sk : gmap string (list string))
    (us scripts : list string) (now : Time) : list (Outcome * Time) :=
  map (fun e => pushGlobal h d sk us now e (logicalName e))
    (List.filter (wantedScript scripts) (srcRoot d)).

(** The moments of a run of [push]: the listing of [srcDir] is there;
    the users are known; the folder scans have all settled. *)
Definition listedAt (h : Host) : Time := latency h (ReadDir SrcDir []).

Definition usersKnownAt (h : Host) (users : list string) : Time :=
  match users with
  | [] => listedAt h + latency h (ReadDir HackmudDir [])
  | _ => listedAt h
  end.

Definition scannedAllAt (h : Host) (d : Disk) (users scripts : list string)
  : Time :=
  allSettled (usersKnownAt h users)
    (snd (scanUsers h d users scripts (listedAt h))).

(** The map [skips] once the folder scans have settled. *)
Definition finalSkips (h : Host) (d : Disk) (users scripts : list string)
  : gmap string (list string) :=
  skips (fst (scanUsers h d users scripts (listedAt h))).

(** The host [h] with another pipeline. *)
Definition withPipeline (h : Host) (pipeline : string -> Settled) : Host :=
  {| processScript := pipeline; latency := latency h |}.

(** The source files [push] processes: the wanted scripts of the wanted
    folders, then the wanted scripts of [srcDir] itself. *)
Definition wantedSources (d : Disk) (users scripts : list string) : list Path :=
  flat_map (fun dir => if wantedFolder users dir
                       then map (fun e => [name dir; name e])
                              (List.filter (wantedScript scripts)
                                 (srcSub d (name dir)))
                       else []) (srcRoot d)
  ++ map (fun e => [name e]) (List.filter (wantedScript scripts) (srcRoot d)).

(** ** [pull] *)

(** A call of [copyFilePersist]: from a path below the hackmud directory
    to a path below the source directory. *)
Record Copy := {
  copyFrom : Path;
  copyTo : Path
}.

(** [`${x}`] for an element of an array that may be missing. *)
Definition printed (x : option string) : string :=
  match x with Some s => s | None => "undefined" end.

(** [path.resolve] on segments below a root: a segment that is empty is
    skipped.  The segments are names, without separator. *)
Definition resolvePath (segments : Path) : Path :=
  List.filter (fun segment => negb (isEmpty segment)) segments.

(** Lines 273-276: [const [ user, name ] = script.split(".")], then the
    copy of [resolvePath(hackmudPath, user, "scripts", `${name}.js`)] to
    [resolvePath(srcPath, user, `${name}.js`)].  [split] gives at least one
    element, so that [user] is always there; it is empty when the text
    starts with a dot. *)
Definition pull (script : string) : Copy :=
  let parts := splitBy DOT script in
  let user := nth 0 parts EmptyString in
  let name' := printed (nth_error parts 1) in
  {| copyFrom := resolvePath [user; "scripts"; name' +:+ ".js"];
     copyTo := resolvePath [user; name' +:+ ".js"] |}.

(** ** [test] *)

(** Lines 335-338: [processScript(...).catch(error => errors.push({ error,
    file }))] for the script read at [src]. *)
Definition testScript (h : Host) (d : Disk) (src : Path) (file' : string)
    (errors : list (string * Failure)) : list (string * Failure) :=
  match processScript h (srcText d src) with
  | Resolved _ => errors
  | Rejected reason => errors ++ [(file', Reason reason)]
  end.

(** Lines 323-343: every script of every folder and of the source
    directory itself is transformed; the result lists, as pairs of [file]
    and [error], the rejections (here in the order of the scan; in the
    code in the order in which they happen). *)
Definition test (h : Host) (d : Disk) : list (string * Failure) :=
  fold_left
    (fun errors dirent =>
       if isDirectory dirent then
         fold_left
           (fun errors entry =>
              if isFile entry
                 && includes supportedExtensions (extname (name entry))
              then testScript h d [name dirent; name entry]
                     (name dirent +:+ "/" +:+ name entry) errors
              else errors)
           (srcSub d (name dirent)) errors
       else if isFile dirent
               && includes supportedExtensions (extname (name dirent))
       then testScript h d [name dirent] (name dirent) errors
       else errors)
    (srcRoot d) [].

(** ** The replacements of [processScript] *)

(** [\w] *)
Definition isWord (c : ascii) : bool :=
  let n := nat_of_ascii c in
  ((48 <=? n) && (n <=? 57)) || ((65 <=? n) && (n <=? 90))
  || ((97 <=? n) && (n <=? 122)) || (n =? 95).


Definition HASH : ascii := "#"%char.
Definition DOLLAR : ascii := "$"%char.
Definition LPAREN : ascii := "("%char.

(** The longest prefix of characters of a class, and what follows it: a
    greedy [[...]*]. *)
Fixpoint span (class : ascii -> bool) (s : string) : string * string :=
  match s with
  | EmptyString => (EmptyString, EmptyString)
  | String c s' =>
      if class c
      then let '(run, rest) := span class s' in (String c run, rest)
      else (EmptyString, s)
  end.

Fixpoint mapChars (f : ascii -> ascii) (s : string) : string :=
  match s with
  | EmptyString => EmptyString
  | String c s' => String (f c) (mapChars f s')
  end.

(** [s.replace(regex, ...)] with the [g] flag, for a regex that matches
    no empty text: [matchAt] tells whether the regex matches at the start
    of a text and gives the replacement and the text after the match;
    the search goes on after a match, and one character further where
    there is none. *)
Fixpoint replaceAll (matchAt : string -> option (string * string))
    (fuel : nat) (s : string) : string :=
  match fuel with
  | 0 => s
  | S fuel' =>
      match matchAt s with
      | Some (replacement, rest) =>
          replacement +:+ replaceAll matchAt fuel' rest
      | None =>
          match s with
          | EmptyString => EmptyString
          | String c s' => String c (replaceAll matchAt fuel' s')
          end
      end
  end.


(** Line 357: [/[#\$]([\w.]+\()/] and the callback
    [a => "$" + a.slice(1).replace(/\./g, "$")]. *)
Definition hideMatch (s : string) : option (string * string) :=
  match s with
  | String c s' =>
      if Ascii.eqb c HASH || Ascii.eqb c DOLLAR then
        match span (fun x => isWord x || Ascii.eqb x DOT) s' with
        | (String r run, String p rest) =>
            if Ascii.eqb p LPAREN
            then Some (String DOLLAR
                         (mapChars (fun x => if Ascii.eqb x DOT then DOLLAR else x)
                            (String r run)
                          +:+ String LPAREN EmptyString),
                       rest)
            else None
        | _ => None
        end
      else None
  | EmptyString => None
  end.

Definition hideScriptors (script : string) : string :=
  replaceAll hideMatch (String.length script) script.

(** Line 394: [/\$[\w\$]+\(/] and the callback
    [a => a.replace("$", "#").replace(/\$/g, ".")]. *)
Definition showMatch (s : string) : option (string * string) :=
  match s with
  | String c s' =>
      if Ascii.eqb c DOLLAR then
        match span (fun x => isWord x || Ascii.eqb x DOLLAR) s' with
        | (String r run, String p rest) =>
            if Ascii.eqb p LPAREN
            then Some (String HASH
                         (mapChars (fun x => if Ascii.eqb x DOLLAR then DOT else x)
                            (String r run)
                          +:+ String LPAREN EmptyString),
                       rest)
            else None
        | _ => None
        end
      else None
  | EmptyString => None
  end.

Definition showScriptors (script : string) : string :=
  replaceAll showMatch (String.length script) script.





















(** ** Further notions for the proofs *)

(** The character [c] occurs in [s]. *)
Definition hasChar (c : ascii) (s : string) : bool :=
  existsb (Ascii.eqb c) (list_ascii_of_string s).

(** What [test] records for the script read at [src]. *)
Definition rejection (h : Host) (d : Disk) (src : Path) (file' : string)
  : list (string * Failure) :=
  match processScript h (srcText d src) with
  | Resolved _ => []
  | Rejected reason => [(file', Reason reason)]
  end.

(** The names of the merged macro file come in strictly increasing
    order. *)
Definition nameBefore (a b : string * MacroEntry) : Prop :=
  String.ltb (fst a) (fst b) = true.

(** Every character of [s] is of the class. *)
Definition allChars (class : ascii -> bool) (s : string) : bool :=
  forallb class (list_ascii_of_string s).

(** Membership in a list that evaluates to a literal. *)
Ltac in_list := vm_compute; repeat (first [left; reflexivity | right]).

(** * Properties *)

(** ** Lists and filters *)

Lemma includes_In (l : list string) (x : string) :
  includes l x = true <-> In x l.
Proof.
  unfold includes. rewrite existsb_exists. split.
  - intros (y & Hy & Heq). apply String.eqb_eq in Heq. now subst.
  - intros H. exists x. split; [exact H | apply String.eqb_refl].
Qed.

Lemma includes_false (l : list string) (x : string) :
  includes l x = false <-> ~ In x l.
Proof.
  rewrite <- includes_In. destruct (includes l x); split; congruence.
Qed.

Lemma wanted_In (filter' : list string) (x : string) :
  In x filter' -> wanted filter' x = true.
Proof.
  destruct filter' as [|y l]; [contradiction |].
  intros H. change (includes (y :: l) x = true). now apply includes_In.
Qed.

Lemma wanted_effective (d : Disk) (users : list string) (user : string) :
  In user (effectiveUsers d users) -> wanted users user = true.
Proof.
  destruct users as [|u us]; [reflexivity |]. apply wanted_In.
Qed.

Lemma isEmpty_true (s : string) : isEmpty s = true <-> s = EmptyString.
Proof. destruct s; simpl; split; congruence. Qed.

Lemma isEmpty_false (s : string) : isEmpty s = false <-> s <> EmptyString.
Proof. destruct s; simpl; split; congruence. Qed.

(** ** The loops of [push] in closed form *)

Lemma deployGlobal_acc h now n code skip us targets promises :
  fold_left
    (fun '(targets, promises) user =>
       if negb (includes skip user)
       then (targets ++ [user],
             promises ++ [writeFilePersist h now (scriptPath user n) code])
       else (targets, promises))
    us (targets, promises)
  = (targets ++ List.filter (fun u => negb (includes skip u)) us,
     promises ++ map (fun u => writeFilePersist h now (scriptPath u n) code)
                   (List.filter (fun u => negb (includes skip u)) us)).
Proof.
  revert targets promises.
  induction us as [|u us IH]; intros targets promises; simpl.
  - now rewrite !app_nil_r.
  - destruct (negb (includes skip u)); simpl.
    + rewrite IH. now rewrite <- !app_assoc.
    + apply IH.
Qed.

Lemma deployGlobal_eq h now n code skip us :
  deployGlobal h now n code skip us
  = (List.filter (fun u => negb (includes skip u)) us,
     map (fun u => writeFilePersist h now (scriptPath u n) code)
       (List.filter (fun u => negb (includes skip u)) us)).
Proof. unfold deployGlobal. now rewrite deployGlobal_acc. Qed.

Lemma wantedScript_global (scripts : list string) (entry : Dirent) :
  (if isFile entry
   then if includes supportedExtensions (extname (name entry))
        then wanted scripts (basename (name entry) (extname (name entry)))
        else false
   else false) = wantedScript scripts entry.
Proof.
  unfold wantedScript, isScript, logicalName.
  destruct (isFile entry), (includes supportedExtensions (extname (name entry)));
    reflexivity.
Qed.

Lemma wantedScript_private (scripts : list string) (entry : Dirent) :
  includes supportedExtensions (extname (name entry)) && isFile entry
  && wanted scripts (basename (name entry) (extname (name entry)))
  = wantedScript scripts entry.
Proof.
  unfold wantedScript, isScript, logicalName.
  destruct (isFile entry), (includes supportedExtensions (extname (name entry)));
    reflexivity.
Qed.

Lemma pushGlobals_acc h d sk us scripts now entries outs promises :
  fold_left
    (fun '(outs, promises) entry =>
       if isFile entry then
         let extension := extname (name entry) in
         if includes supportedExtensions extension then
           let name' := basename (name entry) extension in
           if wanted scripts name' then
             let '(o, p) := pushGlobal h d sk us now entry name' in
             (outs ++ [o], promises ++ [p])
           else (outs, promises)
         else (outs, promises)
       else (outs, promises))
    entries (outs, promises)
  = (outs ++ map (fun e => fst (pushGlobal h d sk us now e (logicalName e)))
               (List.filter (wantedScript scripts) entries),
     promises ++ map (fun e => snd (pushGlobal h d sk us now e (logicalName e)))
                   (List.filter (wantedScript scripts) entries)).
Proof.
  revert outs promises.
  induction entries as [|e entries IH]; intros outs promises;
    cbn [fold_left List.filter map].
  - now rewrite !app_nil_r.
  - rewrite <- (wantedScript_global scripts e).
    destruct (isFile e); [| apply IH].
    destruct (includes supportedExtensions (extname (name e))); [| apply IH].
    destruct (wanted scripts (basename (name e) (extname (name e)))); [| apply IH].
    fold (logicalName e).
    destruct (pushGlobal h d sk us now e (logicalName e)) as [o p] eqn:E.
    rewrite IH. cbn [map]. rewrite E. cbn [fst snd]. now rewrite <- !app_assoc.
Qed.

Lemma pushGlobals_eq h d sk us scripts now :
  pushGlobals h d sk us scripts now
  = (map (fun e => fst (pushGlobal h d sk us now e (logicalName e)))
       (List.filter (wantedScript scripts) (srcRoot d)),
     map (fun e => snd (pushGlobal h d sk us now e (logicalName e)))
       (List.filter (wantedScript scripts) (srcRoot d))).
Proof. unfold pushGlobals. now rewrite pushGlobals_acc. Qed.

Lemma globalOf_eq h d sk us scripts now :
  pushGlobals h d sk us scripts now
  = (map fst (globalOf h d sk us scripts now),
     map snd (globalOf h d sk us scripts now)).
Proof.
  rewrite pushGlobals_eq. unfold globalOf. now rewrite !map_map.
Qed.

Lemma addSkip_skipOf (sk : gmap string (list string)) (n user n' : string) :
  skipOf (addSkip sk n user) n'
  = if String.eqb n n' then skipOf sk n ++ [user] else skipOf sk n'.
Proof.
  unfold addSkip, skipOf.
  destruct (String.eqb_spec n n') as [<- | Hne].
  - destruct (sk !! n) as [skip|] eqn:E; now rewrite lookup_insert_eq.
  - destruct (sk !! n) as [skip|] eqn:E; now rewrite lookup_insert_ne.
Qed.

Lemma scanUserDir_acc h d scripts now user entries st :
  let st' :=
    fold_left
      (fun st entry =>
         let extension := extname (name entry) in
         let name' := basename (name entry) extension in
         if includes supportedExtensions extension && isFile entry
            && wanted scripts name'
         then {| skips := addSkip (skips st) name' user;
                 processed := processed st
                              ++ [pushPrivate h d now user entry name'] |}
         else st)
      entries st in
  processed st'
  = processed st
    ++ map (fun e => pushPrivate h d now user e (logicalName e))
         (List.filter (wantedScript scripts) entries)
  /\ forall n,
      skipOf (skips st') n
      = skipOf (skips st) n
        ++ map (fun _ => user)
             (List.filter
                (fun e => wantedScript scripts e && String.eqb (logicalName e) n)
                entries).
Proof.
  revert st. induction entries as [|e entries IH]; intros st;
    cbn [fold_left List.filter map].
  - split; [| intros n]; now rewrite app_nil_r.
  - cbv zeta. rewrite (wantedScript_private scripts e). fold (logicalName e).
    destruct (wantedScript scripts e); cbn [andb].
    + destruct (IH {| skips := addSkip (skips st) (logicalName e) user;
                      processed := processed st
                        ++ [pushPrivate h d now user e (logicalName e)] |})
        as [Hp Hs].
      cbv zeta in Hp, Hs. split.
      * rewrite Hp. cbn [processed map]. now rewrite <- app_assoc.
      * intros n. rewrite Hs. cbn [skips]. rewrite addSkip_skipOf.
        destruct (String.eqb_spec (logicalName e) n) as [<- | Hne]; cbn [map];
          [now rewrite <- app_assoc | reflexivity].
    + apply IH.
Qed.

Lemma scanUserDir_processed h d scripts now user st :
  processed (scanUserDir h d scripts now user st)
  = processed st ++ privateOf h d scripts now user.
Proof. apply (scanUserDir_acc h d scripts now user (srcSub d user) st). Qed.

Lemma scanUserDir_skips h d scripts now user st n :
  skipOf (skips (scanUserDir h d scripts now user st)) n
  = skipOf (skips st) n ++ ownersIn d scripts n user.
Proof. apply (scanUserDir_acc h d scripts now user (srcSub d user) st). Qed.

Lemma scanUsers_acc h d users scripts t0 dirs st promises :
  let res :=
    fold_left
      (fun '(st, promises) dir =>
         let user := name dir in
         if isDirectory dir && wanted users user
         then let settled := t0 + latency h (ReadDir SrcDir [user]) in
              (scanUserDir h d scripts settled user st, promises ++ [settled])
         else (st, promises))
      dirs (st, promises) in
  processed (fst res)
  = processed st ++ privateAmong h d users scripts t0 dirs
  /\ (forall n, skipOf (skips (fst res)) n
                = skipOf (skips st) n ++ ownersAmong d users scripts n dirs)
  /\ snd res
     = promises ++ map (scannedAt h t0) (List.filter (wantedFolder users) dirs).
Proof.
  revert st promises. induction dirs as [|dir dirs IH]; intros st promises;
    cbn [fold_left List.filter map privateAmong ownersAmong flat_map].
  - repeat split; [| intros n |]; now rewrite app_nil_r.
  - cbv zeta. fold (wantedFolder users dir). fold (scannedAt h t0 dir).
    destruct (wantedFolder users dir).
    + destruct (IH (scanUserDir h d scripts (scannedAt h t0 dir) (name dir) st)
                  (promises ++ [scannedAt h t0 dir])) as (Hp & Hs & Ht).
      repeat split.
      * etransitivity; [exact Hp |].
        rewrite scanUserDir_processed. now rewrite <- app_assoc.
      * intros n. etransitivity; [exact (Hs n) |].
        rewrite scanUserDir_skips. now rewrite <- app_assoc.
      * etransitivity; [exact Ht |]. cbn [map]. now rewrite <- app_assoc.
    + apply IH.
Qed.

Lemma scanUsers_processed h d users scripts t0 :
  processed (fst (scanUsers h d users scripts t0))
  = privateAmong h d users scripts t0 (srcRoot d).
Proof.
  apply (scanUsers_acc h d users scripts t0 (srcRoot d)
           {| skips := ∅; processed := [] |} []).
Qed.

Lemma scanUsers_skips h d users scripts t0 n :
  skipOf (skips (fst (scanUsers h d users scripts t0))) n
  = ownersAmong d users scripts n (srcRoot d).
Proof.
  destruct (scanUsers_acc h d users scripts t0 (srcRoot d)
              {| skips := ∅; processed := [] |} []) as (_ & Hs & _).
  cbv zeta in Hs. unfold scanUsers. rewrite Hs.
  unfold skipOf. cbn [skips]. now rewrite lookup_empty.
Qed.

Lemma scanUsers_promises h d users scripts t0 :
  snd (scanUsers h d users scripts t0)
  = map (scannedAt h t0) (List.filter (wantedFolder users) (srcRoot d)).
Proof.
  apply (scanUsers_acc h d users scripts t0 (srcRoot d)
           {| skips := ∅; processed := [] |} []).
Qed.

Lemma push_outcomes h d users scripts :
  outcomes (push h d users scripts)
  = privateAmong h d users scripts (listedAt h) (srcRoot d)
    ++ map fst (globalOf h d (finalSkips h d users scripts)
                  (effectiveUsers d users) scripts
                  (scannedAllAt h d users scripts)).
Proof.
  unfold push, finalSkips, scannedAllAt, usersKnownAt, effectiveUsers.
  fold (listedAt h).
  rewrite <- (scanUsers_processed h d users scripts (listedAt h)).
  destruct (scanUsers h d users scripts (listedAt h)) as [st promises].
  destruct users as [|u us]; rewrite globalOf_eq; reflexivity.
Qed.

Lemma push_resolvedAt h d users scripts :
  resolvedAt (push h d users scripts)
  = allSettled (scannedAllAt h d users scripts)
      (map snd (globalOf h d (finalSkips h d users scripts)
                  (effectiveUsers d users) scripts
                  (scannedAllAt h d users scripts))).
Proof.
  unfold push, finalSkips, scannedAllAt, usersKnownAt, effectiveUsers.
  fold (listedAt h).
  destruct (scanUsers h d users scripts (listedAt h)) as [st promises].
  destruct users as [|u us]; rewrite globalOf_eq; reflexivity.
Qed.

Lemma finalSkips_owners h d users scripts n :
  skipOf (finalSkips h d users scripts) n
  = ownersAmong d users scripts n (srcRoot d).
Proof. apply scanUsers_skips. Qed.

(** ** One file at a time *)

Lemma transform_resolved h code text :
  processScript h code = Resolved text -> transform h code = (None, text).
Proof. unfold transform. now intros ->. Qed.

Lemma transform_rejected h code reason :
  processScript h code = Rejected reason ->
  transform h code = (Some (Reason reason), EmptyString).
Proof. unfold transform. now intros ->. Qed.

Lemma pushPrivate_source h d now user e n :
  source (pushPrivate h d now user e n) = [user; name e].
Proof.
  unfold pushPrivate. destruct (transform h _) as [[f|] minCode];
    [reflexivity |]. now destruct (isEmpty minCode).
Qed.

Lemma pushGlobal_source h d sk us now e n :
  source (fst (pushGlobal h d sk us now e n)) = [name e].
Proof.
  unfold pushGlobal. destruct (transform h _) as [[f|] minCode];
    [reflexivity |]. destruct (isEmpty minCode); [reflexivity |].
  now rewrite deployGlobal_eq.
Qed.

Lemma pushPrivate_ok h d now user e n minCode :
  processScript h (srcText d [user; name e]) = Resolved minCode ->
  minCode <> EmptyString ->
  pushPrivate h d now user e n
  = {| source := [user; name e];
       info := {| file := user +:+ "/" +:+ name e; users := [user];
                  minLength := hackmudLength minCode; error := None |};
       writes := [writeFilePersist h
                    (now + latency h (ReadFile SrcDir [user; name e])
                     + latency h (ProcessScript (srcText d [user; name e])))
                    (scriptPath user n) minCode] |}.
Proof.
  intros Hp Hne. unfold pushPrivate. rewrite (transform_resolved _ _ _ Hp).
  apply isEmpty_false in Hne. now rewrite Hne.
Qed.

Lemma pushGlobal_ok h d sk us now e n minCode :
  processScript h (srcText d [name e]) = Resolved minCode ->
  minCode <> EmptyString ->
  fst (pushGlobal h d sk us now e n)
  = {| source := [name e];
       info := {| file := name e;
                  users := List.filter (fun u => negb (includes (skipOf sk n) u)) us;
                  minLength := hackmudLength minCode; error := None |};
       writes :=
         map (fun u => writeFilePersist h
                         (now + latency h (ReadFile SrcDir [name e])
                          + latency h (ProcessScript (srcText d [name e])))
                         (scriptPath u n) minCode)
           (List.filter (fun u => negb (includes (skipOf sk n) u)) us) |}.
Proof.
  intros Hp Hne. unfold pushGlobal. rewrite (transform_resolved _ _ _ Hp).
  apply isEmpty_false in Hne. rewrite Hne, deployGlobal_eq. reflexivity.
Qed.

Lemma pushPrivate_failed h d now user e n :
  transformFails h (srcText d [user; name e]) = true ->
  let o := pushPrivate h d now user e n in
  error (info o) <> None /\ writes o = [] /\ minLength (info o) = 0
  /\ users (info o) = [user].
Proof.
  unfold transformFails, pushPrivate, transform.
  destruct (processScript h (srcText d [user; name e])) as [text | reason].
  - intros ->. cbn. repeat split; congruence.
  - intros _. cbn. repeat split; congruence.
Qed.

Lemma pushGlobal_failed h d sk us now e n :
  transformFails h (srcText d [name e]) = true ->
  let o := fst (pushGlobal h d sk us now e n) in
  error (info o) <> None /\ writes o = [] /\ minLength (info o) = 0
  /\ users (info o) = [].
Proof.
  unfold transformFails, pushGlobal, transform.
  destruct (processScript h (srcText d [name e])) as [text | reason].
  - intros ->. cbn. repeat split; congruence.
  - intros _. cbn. repeat split; congruence.
Qed.

Lemma pushGlobal_same_name h d sk us now e e' :
  name e = name e' ->
  fst (pushGlobal h d sk us now e (logicalName e))
  = fst (pushGlobal h d sk us now e' (logicalName e')).
Proof. unfold pushGlobal, logicalName. now intros ->. Qed.

Lemma pushPrivate_same_name h d now user e e' :
  name e = name e' ->
  pushPrivate h d now user e (logicalName e)
  = pushPrivate h d now user e' (logicalName e').
Proof. unfold pushPrivate, logicalName. now intros ->. Qed.

(** ** Which outcomes a run holds *)

Lemma in_outcomesOf (run : PushRun) (src : Path) (o : Outcome) :
  In o (outcomesOf run src) <-> In o (outcomes run) /\ source o = src.
Proof.
  unfold outcomesOf. rewrite filter_In. now rewrite bool_decide_eq_true.
Qed.

Lemma in_privateAmong h d users scripts t0 dirs o :
  In o (privateAmong h d users scripts t0 dirs) <->
  exists dir e,
    In dir dirs /\ wantedFolder users dir = true
    /\ In e (srcSub d (name dir)) /\ wantedScript scripts e = true
    /\ o = pushPrivate h d (scannedAt h t0 dir) (name dir) e (logicalName e).
Proof.
  unfold privateAmong. rewrite in_flat_map. split.
  - intros (dir & Hdir & Ho).
    destruct (wantedFolder users dir) eqn:Hw; [| contradiction].
    unfold privateOf in Ho. apply in_map_iff in Ho as (e & <- & He).
    apply filter_In in He as [He Hs]. now exists dir, e.
  - intros (dir & e & Hdir & Hw & He & Hs & ->).
    exists dir. split; [exact Hdir |]. rewrite Hw. unfold privateOf.
    apply in_map_iff. exists e. split; [reflexivity |].
    apply filter_In. now split.
Qed.

Lemma in_globalOf h d sk us scripts now o :
  In o (map fst (globalOf h d sk us scripts now)) <->
  exists e,
    In e (srcRoot d) /\ wantedScript scripts e = true
    /\ o = fst (pushGlobal h d sk us now e (logicalName e)).
Proof.
  unfold globalOf. rewrite map_map, in_map_iff. split.
  - intros (e & <- & He). apply filter_In in He as [He Hs]. now exists e.
  - intros (e & He & Hs & ->). exists e. split; [reflexivity |].
    apply filter_In. now split.
Qed.

(** The outcomes of a run for a file of [srcDir] itself: that of
    [pushGlobal] on it, and only when it is a wanted script. *)
Lemma push_global_outcome h d users scripts e o :
  In o (outcomesOf (push h d users scripts) [name e]) ->
  o = fst (pushGlobal h d (finalSkips h d users scripts)
             (effectiveUsers d users) (scannedAllAt h d users scripts)
             e (logicalName e)).
Proof.
  rewrite in_outcomesOf, push_outcomes, in_app_iff.
  intros [[Hin | Hin] Hsrc].
  - apply in_privateAmong in Hin as (dir & e' & _ & _ & _ & _ & ->).
    rewrite pushPrivate_source in Hsrc. discriminate.
  - apply in_globalOf in Hin as (e' & _ & _ & ->).
    rewrite pushGlobal_source in Hsrc. apply pushGlobal_same_name. congruence.
Qed.

Lemma push_global_present h d users scripts e :
  In e (srcRoot d) -> wantedScript scripts e = true ->
  In (fst (pushGlobal h d (finalSkips h d users scripts)
             (effectiveUsers d users) (scannedAllAt h d users scripts)
             e (logicalName e)))
     (outcomesOf (push h d users scripts) [name e]).
Proof.
  intros He Hw. rewrite in_outcomesOf, push_outcomes, in_app_iff. split.
  - right. apply in_globalOf. now exists e.
  - apply pushGlobal_source.
Qed.

(** The outcomes of a run for a file of a user's folder. *)
Lemma push_private_outcome h d users scripts user e o :
  In o (outcomesOf (push h d users scripts) [user; name e]) ->
  o = pushPrivate h d (listedAt h + latency h (ReadDir SrcDir [user]))
        user e (logicalName e).
Proof.
  rewrite in_outcomesOf, push_outcomes, in_app_iff.
  intros [[Hin | Hin] Hsrc].
  - apply in_privateAmong in Hin as (dir & e' & _ & _ & _ & _ & ->).
    rewrite pushPrivate_source in Hsrc. injection Hsrc as Hu Hn.
    unfold scannedAt. rewrite Hu. now apply pushPrivate_same_name.
  - apply in_globalOf in Hin as (e' & _ & _ & ->).
    rewrite pushGlobal_source in Hsrc. discriminate.
Qed.

Lemma push_private_present h d users scripts dir e :
  In dir (srcRoot d) -> wantedFolder users dir = true ->
  In e (srcSub d (name dir)) -> wantedScript scripts e = true ->
  In (pushPrivate h d (listedAt h + latency h (ReadDir SrcDir [name dir]))
        (name dir) e (logicalName e))
     (outcomesOf (push h d users scripts) [name dir; name e]).
Proof.
  intros Hdir Hw He Hs. rewrite in_outcomesOf, push_outcomes, in_app_iff. split.
  - left. apply in_privateAmong. now exists dir, e.
  - apply pushPrivate_source.
Qed.

(** ** The map [skips] and the overrides *)

Lemma in_ownersIn d scripts n user u :
  In u (ownersIn d scripts n user) <->
  u = user /\ exists e, In e (srcSub d user) /\ wantedScript scripts e = true
                        /\ logicalName e = n.
Proof.
  unfold ownersIn. rewrite in_map_iff. split.
  - intros (e & <- & He). apply filter_In in He as [He Hc].
    apply andb_true_iff in Hc as [Hw Hn]. apply String.eqb_eq in Hn.
    split; [reflexivity |]. now exists e.
  - intros (-> & e & He & Hw & Hn). exists e. split; [reflexivity |].
    apply filter_In. split; [exact He |].
    apply andb_true_iff. split; [exact Hw | now apply String.eqb_eq].
Qed.

Lemma overrides_true d user n :
  overrides d user n = true <->
  (exists dir, In dir (srcRoot d) /\ isDirectory dir = true /\ name dir = user)
  /\ exists e, In e (srcSub d user) /\ isScript e = true /\ logicalName e = n.
Proof.
  unfold overrides. rewrite andb_true_iff, !existsb_exists. split.
  - intros [(dir & Hdir & Hc) (e & He & Hc')].
    apply andb_true_iff in Hc as [Hk Hn]. apply String.eqb_eq in Hn.
    apply andb_true_iff in Hc' as [Hs Hl]. apply String.eqb_eq in Hl.
    split; [now exists dir | now exists e].
  - intros [(dir & Hdir & Hk & Hn) (e & He & Hs & Hl)]. split.
    + exists dir. split; [exact Hdir |]. apply andb_true_iff.
      split; [exact Hk | now apply String.eqb_eq].
    + exists e. split; [exact He |]. apply andb_true_iff.
      split; [exact Hs | now apply String.eqb_eq].
Qed.

(** For a user and a name that pass the filters, [skips] lists the user
    under the name exactly when the user holds an override for it. *)
Lemma owners_overrides d users scripts n user :
  wanted users user = true -> wanted scripts n = true ->
  In user (ownersAmong d users scripts n (srcRoot d)) <->
  overrides d user n = true.
Proof.
  intros Hu Hn. rewrite overrides_true. unfold ownersAmong.
  rewrite in_flat_map. split.
  - intros (dir & Hdir & Hin).
    destruct (wantedFolder users dir) eqn:Hw; [| contradiction].
    apply in_ownersIn in Hin as (-> & e & He & Hs & Hl).
    apply andb_true_iff in Hw as [Hk _]. apply andb_true_iff in Hs as [Hs _].
    split; [now exists dir | now exists e].
  - intros [(dir & Hdir & Hk & <-) (e & He & Hs & <-)].
    exists dir. split; [exact Hdir |].
    unfold wantedFolder. rewrite Hk, Hu. cbn [andb].
    apply in_ownersIn. split; [reflexivity |]. exists e.
    split; [exact He |]. split; [| reflexivity].
    unfold wantedScript. now rewrite Hs, Hn.
Qed.

Lemma in_scriptPaths (n user : string) (l : list string) :
  In (scriptPath user n) (map (fun u => scriptPath u n) l) <-> In user l.
Proof.
  rewrite in_map_iff. split.
  - intros (u & Heq & Hu). unfold scriptPath in Heq. now injection Heq as ->.
  - intros H. now exists user.
Qed.

Lemma not_skipped h d users scripts n user :
  wanted scripts n = true ->
  In user
    (List.filter
       (fun u => negb (includes (skipOf (finalSkips h d users scripts) n) u))
       (effectiveUsers d users))
  <-> In user (effectiveUsers d users) /\ overrides d user n = false.
Proof.
  intros Hn. rewrite filter_In, negb_true_iff, includes_false.
  rewrite finalSkips_owners. split; intros [Hu Ho]; (split; [exact Hu |]).
  - rewrite <- not_true_iff_false.
    now rewrite <- (owners_overrides d users scripts n user
                      (wanted_effective _ _ _ Hu) Hn).
  - rewrite (owners_overrides d users scripts n user
               (wanted_effective _ _ _ Hu) Hn). congruence.
Qed.

(** ** The claims about [push] *)

(** C1.  A global script that passes the script filter and transforms to
    a non-empty text is processed, and its callback writes the deployment
    path of its logical name for exactly the effective users (the user
    filter if there is one, else the users with a [.key] marker) that
    hold no private override for that name; it writes nothing else, and
    [info.users] lists the same users.  In particular a user with an
    override is never written. *)
Theorem push_global_targets h d userFilter scripts entry n minCode :
  In entry (srcRoot d) ->
  isScript entry = true ->
  logicalName entry = n ->
  wanted scripts n = true ->
  processScript h (srcText d [name entry]) = Resolved minCode ->
  minCode <> EmptyString ->
  outcomesOf (push h d userFilter scripts) [name entry] <> []
  /\ forall o, In o (outcomesOf (push h d userFilter scripts) [name entry]) ->
       (forall user,
           writtenTo o n user
           <-> In user (effectiveUsers d userFilter) /\ overrides d user n = false)
       /\ (forall w, In w (writes o) ->
             exists user, target w = scriptPath user n /\ data w = minCode)
       /\ (forall user,
             In user (users (info o))
             <-> In user (effectiveUsers d userFilter) /\ overrides d user n = false).
Proof.
  intros Hin Hs Hl Hn Hp Hne. split.
  - intros Hnil.
    assert (Hw : wantedScript scripts entry = true)
      by (unfold wantedScript; now rewrite Hs, Hl, Hn).
    pose proof (push_global_present h d userFilter scripts entry Hin Hw) as H.
    rewrite Hnil in H. exact H.
  - intros o Ho. apply push_global_outcome in Ho. subst o.
    rewrite Hl, (pushGlobal_ok _ _ _ _ _ _ _ _ Hp Hne). cbn [writes info users].
    split; [| split].
    + intros user. unfold writtenTo. cbn [writes]. rewrite List.map_map.
      cbn [target writeFilePersist]. rewrite in_scriptPaths.
      now apply not_skipped.
    + intros w Hw. apply in_map_iff in Hw as (u & <- & _). now exists u.
    + intros user. now apply not_skipped.
Qed.

Lemma push_global_targets_witness :
  (writtenTo sampleOutcome "foo" "bob"
   <-> In "bob" (effectiveUsers sampleDisk [])
       /\ overrides sampleDisk "bob" "foo" = false)
  /\ (writtenTo sampleOutcome "foo" "alice"
      <-> In "alice" (effectiveUsers sampleDisk [])
          /\ overrides sampleDisk "alice" "foo" = false).
Proof.
  destruct (push_global_targets sampleHost sampleDisk [] [] (aFile "foo.ts")
              "foo" "function () { return 1 }") as [_ H].
  - in_list.
  - reflexivity.
  - reflexivity.
  - reflexivity.
  - reflexivity.
  - discriminate.
  - destruct (H sampleOutcome) as (Hw & _ & _).
    + in_list.
    + split; apply Hw.
Defined.

(** C6.  A private script whose owner passes the user filter and whose
    name passes the script filter, and that transforms to a non-empty
    text, is processed; its callback issues one write, of the transformed
    text to the deployment path of the owner, whatever else the user
    filter holds, and [info.users] is the owner alone. *)
Theorem push_private_targets_owner h d userFilter scripts dir entry minCode :
  In dir (srcRoot d) ->
  isDirectory dir = true ->
  wanted userFilter (name dir) = true ->
  In entry (srcSub d (name dir)) ->
  isScript entry = true ->
  wanted scripts (logicalName entry) = true ->
  processScript h (srcText d [name dir; name entry]) = Resolved minCode ->
  minCode <> EmptyString ->
  outcomesOf (push h d userFilter scripts) [name dir; name entry] <> []
  /\ forall o,
       In o (outcomesOf (push h d userFilter scripts) [name dir; name entry]) ->
       map target (writes o) = [scriptPath (name dir) (logicalName entry)]
       /\ map data (writes o) = [minCode]
       /\ users (info o) = [name dir].
Proof.
  intros Hdir Hk Hu He Hs Hn Hp Hne. split.
  - intros Hnil.
    assert (Hwf : wantedFolder userFilter dir = true)
      by (unfold wantedFolder; now rewrite Hk, Hu).
    assert (Hws : wantedScript scripts entry = true)
      by (unfold wantedScript; now rewrite Hs, Hn).
    pose proof (push_private_present h d userFilter scripts dir entry Hdir Hwf He Hws)
      as H.
    rewrite Hnil in H. exact H.
  - intros o Ho. apply push_private_outcome in Ho. subst o.
    rewrite (pushPrivate_ok _ _ _ _ _ _ _ Hp Hne). now cbn.
Qed.

Lemma push_private_targets_owner_witness :
  map target (writes samplePrivateOutcome) = [scriptPath "alice" "foo"]
  /\ map data (writes samplePrivateOutcome) = ["function () { return 2 }"]
  /\ users (info samplePrivateOutcome) = ["alice"].
Proof.
  destruct (push_private_targets_owner sampleHost sampleDisk ["bob"; "alice"] []
              (aFolder "alice") (aFile "foo.ts") "function () { return 2 }")
    as [_ H].
  - in_list.
  - reflexivity.
  - reflexivity.
  - in_list.
  - reflexivity.
  - reflexivity.
  - reflexivity.
  - discriminate.
  - apply (H samplePrivateOutcome). in_list.
Defined.

(** ** What a callback of [push] can write *)

Lemma append_cons (c : ascii) (s t : string) :
  String c s +:+ t = String c (s +:+ t).
Proof. reflexivity. Qed.

Lemma append_length (s t : string) :
  String.length (s +:+ t) = String.length s + String.length t.
Proof.
  induction s as [|c s IH]; [reflexivity |].
  rewrite append_cons. cbn [String.length]. now rewrite IH.
Qed.

Lemma append_cancel_r (s s' t : string) : s +:+ t = s' +:+ t -> s = s'.
Proof.
  revert s'. induction s as [|c s IH]; intros [|c' s'] H.
  - reflexivity.
  - apply (f_equal String.length) in H.
    rewrite !append_length in H. cbn [String.length] in H. lia.
  - apply (f_equal String.length) in H.
    rewrite !append_length in H. cbn [String.length] in H. lia.
  - rewrite !append_cons in H. injection H as -> H. f_equal. now apply IH.
Qed.

Lemma scriptPath_inj (user user' n n' : string) :
  scriptPath user n = scriptPath user' n' -> user = user' /\ n = n'.
Proof.
  unfold scriptPath. intros H. injection H as -> H.
  split; [reflexivity | now apply append_cancel_r in H].
Qed.

Lemma pushPrivate_writes h d now user e n w :
  In w (writes (pushPrivate h d now user e n)) ->
  target w = scriptPath user n
  /\ transformFails h (srcText d [user; name e]) = false.
Proof.
  unfold pushPrivate, transformFails, transform.
  destruct (processScript h (srcText d [user; name e])) as [text | reason].
  - destruct (isEmpty text); cbn [writes In].
    + contradiction.
    + intros [<- | []]. now split.
  - cbn [writes In]. contradiction.
Qed.

Lemma pushGlobal_writes h d sk us now e n w :
  In w (writes (fst (pushGlobal h d sk us now e n))) ->
  exists user,
    In user us /\ ~ In user (skipOf sk n) /\ target w = scriptPath user n.
Proof.
  unfold pushGlobal, transform.
  destruct (processScript h (srcText d [name e])) as [text | reason].
  - destruct (isEmpty text); cbn [fst writes In]; [contradiction |].
    rewrite deployGlobal_eq. cbn [writes].
    intros Hw. apply in_map_iff in Hw as (u & <- & Hu).
    apply filter_In in Hu as [Hu Hs].
    apply negb_true_iff, includes_false in Hs. now exists u.
  - cbn [fst writes In]. contradiction.
Qed.

Lemma push_outcome_cases h d users scripts o :
  In o (outcomes (push h d users scripts)) ->
  (exists dir e,
      In dir (srcRoot d) /\ wantedFolder users dir = true
      /\ In e (srcSub d (name dir)) /\ wantedScript scripts e = true
      /\ o = pushPrivate h d (scannedAt h (listedAt h) dir) (name dir) e
               (logicalName e))
  \/ (exists e,
        In e (srcRoot d) /\ wantedScript scripts e = true
        /\ o = fst (pushGlobal h d (finalSkips h d users scripts)
                      (effectiveUsers d users) (scannedAllAt h d users scripts)
                      e (logicalName e))).
Proof.
  rewrite push_outcomes, in_app_iff. intros [H | H].
  - left. now apply in_privateAmong.
  - right. now apply in_globalOf.
Qed.

(** ** The pipeline and the rest of a run *)

Lemma pushPrivate_pipeline h pipeline d now user e n :
  pipeline (srcText d [user; name e]) = processScript h (srcText d [user; name e]) ->
  pushPrivate (withPipeline h pipeline) d now user e n
  = pushPrivate h d now user e n.
Proof.
  intros H. unfold pushPrivate, transform. cbn [processScript latency withPipeline].
  now rewrite H.
Qed.

Lemma pushGlobal_skips h d sk sk' us now e n :
  skipOf sk n = skipOf sk' n ->
  pushGlobal h d sk us now e n = pushGlobal h d sk' us now e n.
Proof.
  intros H. unfold pushGlobal.
  change (default [] (sk !! n)) with (skipOf sk n).
  change (default [] (sk' !! n)) with (skipOf sk' n).
  now rewrite H.
Qed.

Lemma pushGlobal_pipeline h pipeline d sk us now e n :
  pipeline (srcText d [name e]) = processScript h (srcText d [name e]) ->
  pushGlobal (withPipeline h pipeline) d sk us now e n
  = pushGlobal h d sk us now e n.
Proof.
  intros H. unfold pushGlobal, transform. cbn [processScript latency withPipeline].
  rewrite H. destruct (processScript h (srcText d [name e])); [| reflexivity].
  destruct (isEmpty text); [reflexivity |].
  now rewrite !deployGlobal_eq.
Qed.

Lemma scannedAllAt_closed h d users scripts :
  scannedAllAt h d users scripts
  = allSettled (usersKnownAt h users)
      (map (scannedAt h (listedAt h))
         (List.filter (wantedFolder users) (srcRoot d))).
Proof. unfold scannedAllAt. now rewrite scanUsers_promises. Qed.

Lemma scannedAllAt_pipeline h pipeline d users scripts :
  scannedAllAt (withPipeline h pipeline) d users scripts
  = scannedAllAt h d users scripts.
Proof. now rewrite !scannedAllAt_closed. Qed.

Lemma finalSkips_pipeline h pipeline d users scripts n :
  skipOf (finalSkips (withPipeline h pipeline) d users scripts) n
  = skipOf (finalSkips h d users scripts) n.
Proof. now rewrite !finalSkips_owners. Qed.

Lemma filter_map_agree {A B : Type} (keep : B -> bool) (f g : A -> B)
    (l : list A) :
  (forall x, In x l -> keep (f x) = keep (g x)) ->
  (forall x, In x l -> keep (g x) = true -> f x = g x) ->
  List.filter keep (map f l) = List.filter keep (map g l).
Proof.
  induction l as [|x l IH]; intros Hk He; [reflexivity |].
  cbn [map List.filter]. rewrite (Hk x (or_introl eq_refl)).
  rewrite IH.
  - destruct (keep (g x)) eqn:E; [| reflexivity].
    now rewrite (He x (or_introl eq_refl) E).
  - intros y Hy. apply Hk. now right.
  - intros y Hy. apply He. now right.
Qed.

Lemma filter_flat_map_agree {A B : Type} (keep : B -> bool)
    (f g : A -> list B) (l : list A) :
  (forall x, In x l -> List.filter keep (f x) = List.filter keep (g x)) ->
  List.filter keep (flat_map f l) = List.filter keep (flat_map g l).
Proof.
  induction l as [|x l IH]; intros H; [reflexivity |].
  cbn [flat_map]. rewrite !List.filter_app.
  rewrite (H x (or_introl eq_refl)).
  now rewrite IH by (intros; apply H; auto using in_cons).
Qed.

Lemma privateAmong_sources h d users scripts t0 dirs :
  map source (privateAmong h d users scripts t0 dirs)
  = flat_map (fun dir => if wantedFolder users dir
                         then map (fun e => [name dir; name e])
                                (List.filter (wantedScript scripts)
                                   (srcSub d (name dir)))
                         else []) dirs.
Proof.
  induction dirs as [|dir dirs IH]; [reflexivity |].
  cbn [privateAmong flat_map]. rewrite List.map_app. fold (privateAmong h d users scripts t0 dirs).
  rewrite IH. f_equal.
  destruct (wantedFolder users dir); [| reflexivity].
  unfold privateOf. rewrite List.map_map. apply map_ext.
  intros e. apply pushPrivate_source.
Qed.

Lemma push_sources h d users scripts :
  map source (outcomes (push h d users scripts)) = wantedSources d users scripts.
Proof.
  rewrite push_outcomes, List.map_app, privateAmong_sources.
  unfold wantedSources. f_equal.
  unfold globalOf. rewrite !List.map_map. apply map_ext.
  intros e. apply pushGlobal_source.
Qed.

Lemma push_outcomesOf_pipeline h pipeline d users scripts src :
  pipeline (srcText d src) = processScript h (srcText d src) ->
  outcomesOf (push (withPipeline h pipeline) d users scripts) src
  = outcomesOf (push h d users scripts) src.
Proof.
  intros H. unfold outcomesOf. rewrite !push_outcomes, !List.filter_app.
  f_equal.
  - unfold privateAmong. apply filter_flat_map_agree. intros dir _.
    destruct (wantedFolder users dir); [| reflexivity].
    unfold privateOf. apply filter_map_agree.
    + intros e _. now rewrite !pushPrivate_source.
    + intros e _ Hsrc. apply bool_decide_eq_true in Hsrc.
      rewrite pushPrivate_source in Hsrc. apply pushPrivate_pipeline.
      now rewrite Hsrc.
  - rewrite scannedAllAt_pipeline. unfold globalOf. rewrite !List.map_map.
    apply filter_map_agree.
    + intros e _. now rewrite !pushGlobal_source.
    + intros e _ Hsrc. apply bool_decide_eq_true in Hsrc.
      rewrite pushGlobal_source in Hsrc.
      rewrite pushGlobal_pipeline by now rewrite Hsrc.
      f_equal. apply pushGlobal_skips, finalSkips_pipeline.
Qed.

Lemma push_outcome_failed h d users scripts src o :
  In o (outcomesOf (push h d users scripts) src) ->
  transformFails h (srcText d src) = true ->
  error (info o) <> None /\ writes o = [] /\ minLength (info o) = 0.
Proof.
  rewrite in_outcomesOf. intros [Hin Hsrc] Hf.
  apply push_outcome_cases in Hin
    as [(dir & e & _ & _ & _ & _ & ->) | (e & _ & _ & ->)].
  - rewrite pushPrivate_source in Hsrc. subst src.
    destruct (pushPrivate_failed h d (scannedAt h (listedAt h) dir) (name dir) e
                (logicalName e) Hf) as (He & Hw & Hm & _).
    now repeat split.
  - rewrite pushGlobal_source in Hsrc. subst src.
    destruct (pushGlobal_failed h d (finalSkips h d users scripts)
                (effectiveUsers d users) (scannedAllAt h d users scripts) e
                (logicalName e) Hf) as (He & Hw & Hm & _).
    now repeat split.
Qed.

Lemma push_outcome_ok h d userFilter scripts src o minCode :
  In o (outcomesOf (push h d userFilter scripts) src) ->
  processScript h (srcText d src) = Resolved minCode ->
  minCode <> EmptyString ->
  minLength (info o) = hackmudLength minCode
  /\ error (info o) = None
  /\ forall w, In w (writes o) -> data w = minCode.
Proof.
  rewrite in_outcomesOf. intros [Hin Hsrc] Hp Hne.
  apply push_outcome_cases in Hin
    as [(dir & e & _ & _ & _ & _ & ->) | (e & _ & _ & ->)].
  - rewrite pushPrivate_source in Hsrc. subst src.
    rewrite (pushPrivate_ok _ _ _ _ _ _ _ Hp Hne). cbn [info minLength error writes].
    repeat split. intros w [<- | []]. reflexivity.
  - rewrite pushGlobal_source in Hsrc. subst src.
    rewrite (pushGlobal_ok _ _ _ _ _ _ _ _ Hp Hne).
    cbn [info minLength error writes].
    repeat split. intros w Hw. apply in_map_iff in Hw as (u & <- & _).
    reflexivity.
Qed.

Lemma transformFails_cases h code :
  (exists reason, processScript h code = Rejected reason)
  \/ processScript h code = Resolved EmptyString ->
  transformFails h code = true.
Proof.
  unfold transformFails. intros [[reason ->] | ->]; reflexivity.
Qed.

(** C8.  In [push] a rejection by the pipeline and an empty output end
    alike for the file: a non-null error, no write, a minified length
    of 0.  The rest of the batch is not affected: the run holds an
    outcome for every wanted script whatever the pipeline does, and the
    outcomes for a file are the same under any pipeline that does the
    same on the text of that file. *)
Theorem push_failure_is_local h d userFilter scripts :
  (forall src o,
      In o (outcomesOf (push h d userFilter scripts) src) ->
      (exists reason, processScript h (srcText d src) = Rejected reason)
      \/ processScript h (srcText d src) = Resolved EmptyString ->
      error (info o) <> None /\ writes o = [] /\ minLength (info o) = 0)
  /\ map source (outcomes (push h d userFilter scripts))
     = wantedSources d userFilter scripts
  /\ (forall pipeline src,
         pipeline (srcText d src) = processScript h (srcText d src) ->
         outcomesOf (push (withPipeline h pipeline) d userFilter scripts) src
         = outcomesOf (push h d userFilter scripts) src).
Proof.
  split; [| split].
  - intros src o Hin Hf. apply (push_outcome_failed h d userFilter scripts src o Hin).
    now apply transformFails_cases.
  - apply push_sources.
  - intros pipeline src H. now apply push_outcomesOf_pipeline.
Qed.

Lemma push_failure_is_local_witness :
  (forall o, In o (outcomesOf (push sampleHost sampleDisk [] []) ["bad.js"]) ->
     error (info o) <> None /\ writes o = [] /\ minLength (info o) = 0)
  /\ (forall o, In o (outcomesOf (push sampleHost sampleDisk [] []) ["empty.js"]) ->
        error (info o) <> None /\ writes o = [] /\ minLength (info o) = 0)
  /\ outcomesOf (push (withPipeline sampleHost Resolved) sampleDisk [] []) ["foo.ts"]
     = outcomesOf (push sampleHost sampleDisk [] []) ["foo.ts"].
Proof.
  destruct (push_failure_is_local sampleHost sampleDisk [] []) as (Hf & _ & Hp).
  split; [| split].
  - intros o Ho. apply (Hf ["bad.js"] o Ho). left. exists "SyntaxError". reflexivity.
  - intros o Ho. apply (Hf ["empty.js"] o Ho). right. reflexivity.
  - apply (Hp Resolved ["foo.ts"]). reflexivity.
Defined.

(** C9.  A user who holds a private override for [n] (and passes the
    user filter, [n] passing the script filter) is listed in [skips]
    under [n] whatever the pipeline does with the override; if every
    override of the user for [n] fails to transform or transforms to
    nothing, no callback of the run, private or global, writes the
    deployment path of [n] for that user. *)
Theorem push_failed_override_still_skips h d userFilter scripts dir n :
  In dir (srcRoot d) ->
  isDirectory dir = true ->
  wanted userFilter (name dir) = true ->
  wanted scripts n = true ->
  (exists e, In e (srcSub d (name dir)) /\ isScript e = true /\ logicalName e = n) ->
  (forall e, In e (srcSub d (name dir)) -> isScript e = true ->
             logicalName e = n ->
             transformFails h (srcText d [name dir; name e]) = true) ->
  (forall pipeline,
      In (name dir)
        (skipOf (finalSkips (withPipeline h pipeline) d userFilter scripts) n))
  /\ forall o, In o (outcomes (push h d userFilter scripts)) ->
               ~ writtenTo o n (name dir).
Proof.
  intros Hdir Hk Hu Hn Hex Hfail.
  assert (Hov : In (name dir) (ownersAmong d userFilter scripts n (srcRoot d))).
  { apply (owners_overrides d userFilter scripts n (name dir) Hu Hn).
    apply overrides_true. split; [now exists dir | exact Hex]. }
  split.
  - intros pipeline. now rewrite finalSkips_owners.
  - intros o Hin Hw. unfold writtenTo in Hw.
    apply in_map_iff in Hw as (w & Htarget & Hw).
    apply push_outcome_cases in Hin
      as [(dir' & e & _ & _ & He & Hs & ->) | (e & _ & _ & ->)].
    + apply pushPrivate_writes in Hw as [Ht Hok].
      rewrite Ht in Htarget. apply scriptPath_inj in Htarget as [Hd Hl].
      rewrite Hd in He, Hok.
      apply andb_true_iff in Hs as [Hs _].
      rewrite (Hfail e He Hs Hl) in Hok. discriminate.
    + apply pushGlobal_writes in Hw as (u & _ & Hskip & Ht).
      rewrite Ht in Htarget. apply scriptPath_inj in Htarget as [Hd Hl].
      rewrite Hd, Hl in Hskip. apply Hskip. now rewrite finalSkips_owners.
Qed.

Lemma push_failed_override_still_skips_witness :
  In "carol" (skipOf (finalSkips sampleHost sampleDisk [] []) "foo")
  /\ forall o, In o (outcomes (push sampleHost sampleDisk [] [])) ->
               ~ writtenTo o "foo" "carol".
Proof.
  destruct (push_failed_override_still_skips sampleHost sampleDisk [] []
              (aFolder "carol") "foo") as [Hs Hw].
  - in_list.
  - reflexivity.
  - reflexivity.
  - reflexivity.
  - exists (aFile "foo.js"). split; [in_list |].
    split; reflexivity.
  - intros e [<- | []] _ _. reflexivity.
  - split; [apply (Hs (processScript sampleHost)) | exact Hw].
Defined.

(** ** [hackmudLength] *)

Lemma hackmudLength_countNonBlank (script : string) :
  hackmudLength script = countNonBlank script.
Proof.
  unfold hackmudLength, countNonBlank.
  induction script as [|c s IH]; [reflexivity |].
  cbn [stripBlanks list_ascii_of_string List.filter]. unfold isBlank at 1.
  destruct (Ascii.eqb c SP || Ascii.eqb c LF || Ascii.eqb c CR);
    cbn [negb String.length length]; now rewrite IH.
Qed.

Lemma countBlank_countNonBlank (script : string) :
  countNonBlank script + countBlank script = String.length script.
Proof.
  unfold countNonBlank, countBlank.
  induction script as [|c s IH]; [reflexivity |].
  cbn [list_ascii_of_string List.filter String.length].
  destruct (isBlank c); cbn [negb length]; lia.
Qed.

(** ** One event of [watch] *)

Lemma fold_left_snoc {A : Type} (l acc : list A) :
  fold_left (fun targets x => targets ++ [x]) l acc = acc ++ l.
Proof.
  revert acc. induction l as [|x l IH]; intros acc; cbn [fold_left].
  - now rewrite app_nil_r.
  - rewrite IH. now rewrite <- app_assoc.
Qed.

(** A processed change of a private script whose transformation gives a
    non-empty text: [info.users] is the owner followed by the whole of
    [users]; the single write goes to the owner. *)
Lemma changePrivate_ok h d scripts now users path n parts user minCode :
  wanted users user = true -> wanted scripts n = true ->
  processScript h (srcText d parts) = Resolved minCode ->
  minCode <> EmptyString ->
  changePrivate h d scripts now users path n parts user
  = (users,
     Some {| source := parts;
             info := {| file := path; users := user :: users;
                        minLength := hackmudLength minCode; error := None |};
             writes := [writeFilePersist h
                          (now + latency h (ReadFile SrcDir parts)
                           + latency h (ProcessScript (srcText d parts)))
                          (scriptPath user n) minCode] |}).
Proof.
  intros Hu Hn Hp Hne. unfold changePrivate. rewrite Hu, Hn. cbn [andb].
  rewrite (transform_resolved _ _ _ Hp).
  apply isEmpty_false in Hne. rewrite Hne, fold_left_snoc. reflexivity.
Qed.

Lemma changePrivate_some h d scripts now users path n parts user users' o minCode :
  changePrivate h d scripts now users path n parts user = (users', Some o) ->
  processScript h (srcText d (source o)) = Resolved minCode ->
  minCode <> EmptyString ->
  minLength (info o) = hackmudLength minCode
  /\ forall w, In w (writes o) -> data w = minCode.
Proof.
  unfold changePrivate, transform.
  destruct (wanted users user && wanted scripts n); [| discriminate].
  destruct (processScript h (srcText d parts)) as [text | reason] eqn:E.
  - destruct (isEmpty text) eqn:Ee; intros [= <- <-]; cbn [source info writes];
      rewrite E; intros [= ->] Hne.
    + apply isEmpty_true in Ee. contradiction.
    + split; [reflexivity |]. intros w [<- | []]. reflexivity.
  - intros [= <- <-]. cbn [source]. rewrite E. discriminate.
Qed.

Lemma changeGlobal_some h d scripts now users path n users' o minCode :
  changeGlobal h d scripts now users path n = (users', Some o) ->
  processScript h (srcText d (source o)) = Resolved minCode ->
  minCode <> EmptyString ->
  minLength (info o) = hackmudLength minCode
  /\ forall w, In w (writes o) -> data w = minCode.
Proof.
  unfold changeGlobal, transform.
  destruct (wanted scripts n); [| discriminate].
  destruct (scanOverrides h d _) as [sk promisesSkips].
  destruct (processScript h (srcText d [path])) as [text | reason] eqn:E.
  - destruct (isEmpty text) eqn:Ee.
    + intros [= <- <-]. cbn [source]. rewrite E. intros [= ->] Hne.
      apply isEmpty_true in Ee. contradiction.
    + destruct users as [|u us]; rewrite deployGlobal_eq;
        intros [= <- <-]; cbn [source info writes minLength setUsers setMinLength];
        rewrite E; intros [= ->] Hne;
        (split; [reflexivity |]);
        intros w Hw; apply in_map_iff in Hw as (x & <- & _); reflexivity.
  - intros [= <- <-]. cbn [source]. rewrite E. discriminate.
Qed.

Lemma onChange_some h d scripts now users path users' o minCode :
  onChange h d scripts now users path = (users', Some o) ->
  processScript h (srcText d (source o)) = Resolved minCode ->
  minCode <> EmptyString ->
  minLength (info o) = hackmudLength minCode
  /\ forall w, In w (writes o) -> data w = minCode.
Proof.
  unfold onChange.
  destruct (includes supportedExtensions (extname path)); [| discriminate].
  destruct (splitBy SLASH path) as [|p1 [|p2 [|p3 ps]]]; try discriminate.
  - apply changeGlobal_some.
  - apply changePrivate_some.
Qed.

(** ** The time at which [push] resolves *)

Lemma pushGlobal_settles h d sk us now e n :
  snd (pushGlobal h d sk us now e n)
  = now + latency h (ReadFile SrcDir [name e])
    + latency h (ProcessScript (srcText d [name e])).
Proof. unfold pushGlobal. now destruct (transform h _). Qed.

(** The promise of [push] waits for the folder scans, for the list of
    users and for the processing of every global script; the duration of
    no write enters. *)
Lemma push_resolvedAt_closed h d users scripts :
  resolvedAt (push h d users scripts)
  = allSettled (scannedAllAt h d users scripts)
      (map (fun e => scannedAllAt h d users scripts
                     + latency h (ReadFile SrcDir [name e])
                     + latency h (ProcessScript (srcText d [name e])))
         (List.filter (wantedScript scripts) (srcRoot d))).
Proof.
  rewrite push_resolvedAt. unfold globalOf. rewrite List.map_map.
  f_equal. apply map_ext. intros e. apply pushGlobal_settles.
Qed.

(** C5.  On [sampleDisk], with writes that take one tick and everything
    else none, the promise of [push] resolves at time 0, while the write
    of the private script [alice/foo.ts] and the write of the global
    script [foo.ts] both settle at time 1: the promise resolves before
    the writes have settled. *)
Theorem push_resolves_before_writes_settle :
  resolvedAt (push sampleHost sampleDisk [] []) = 0
  /\ (exists o w,
         In o (outcomes (push sampleHost sampleDisk [] []))
         /\ source o = ["alice"; "foo.ts"] /\ In w (writes o)
         /\ resolvedAt (push sampleHost sampleDisk [] []) < settledAt w)
  /\ (exists o w,
         In o (outcomes (push sampleHost sampleDisk [] []))
         /\ source o = ["foo.ts"] /\ In w (writes o)
         /\ resolvedAt (push sampleHost sampleDisk [] []) < settledAt w).
Proof.
  split; [reflexivity |]. split.
  - exists samplePrivateOutcome.
    exists {| target := ["alice"; "scripts"; "foo.js"];
              data := "function () { return 2 }"; settledAt := 1 |}.
    split; [in_list |].
    split; [reflexivity |].
    split; [left; reflexivity |]. vm_compute. lia.
  - exists sampleOutcome.
    exists {| target := ["bob"; "scripts"; "foo.js"];
              data := "function () { return 1 }"; settledAt := 1 |}.
    split; [in_list |].
    split; [reflexivity |].
    split; [left; reflexivity |]. vm_compute. lia.
Qed.

(** ** The claim about [watch] *)

Lemma onChange_private h d scripts now users path user rest :
  includes supportedExtensions (extname path) = true ->
  splitBy SLASH path = [user; rest] ->
  onChange h d scripts now users path
  = changePrivate h d scripts now users path (basename path (extname path))
      [user; rest] user.
Proof. intros He Hs. unfold onChange. now rewrite He, Hs. Qed.

(** The change of a private script that passes the filters and
    transforms to a non-empty text: one write, to the owner; [info.users]
    is the owner followed by the value of [users], which is the user
    filter or, after the change of a global script, the known users. *)
Lemma onChange_private_ok h d scripts now userFilter path user rest minCode :
  includes supportedExtensions (extname path) = true ->
  splitBy SLASH path = [user; rest] ->
  wanted userFilter user = true ->
  wanted scripts (basename path (extname path)) = true ->
  processScript h (srcText d [user; rest]) = Resolved minCode ->
  minCode <> EmptyString ->
  exists o,
    onChange h d scripts now userFilter path = (userFilter, Some o)
    /\ map target (writes o) = [scriptPath user (basename path (extname path))]
    /\ map data (writes o) = [minCode]
    /\ users (info o) = user :: userFilter.
Proof.
  intros He Hs Hu Hn Hp Hne.
  rewrite (onChange_private _ _ _ _ _ _ _ _ He Hs).
  rewrite (changePrivate_ok _ _ _ _ _ _ _ _ _ _ Hu Hn Hp Hne).
  eexists. split; [reflexivity |]. now cbn.
Qed.

(** C2.  With the user filter [alice], [bob], the change of
    [alice/foo.ts] issues one write, to the deployment path of [alice],
    but the [Info] handed to [onPush] lists [alice], [alice], [bob]: the
    owner, then every user of the filter.  Without a user filter the
    list is the owner alone, until the change of a global script has
    assigned the known users to [users]: from then on it is the owner
    followed by all of them. *)
Theorem watch_private_reports_whole_filter :
  watch sampleHost ["alice"; "bob"] [] [(sampleDisk, 0, "alice/foo.ts")]
  = [Some {| source := ["alice"; "foo.ts"];
             info := {| file := "alice/foo.ts";
                        users := ["alice"; "alice"; "bob"];
                        minLength := 19; error := None |};
             writes := [{| target := scriptPath "alice" "foo";
                           data := "function () { return 2 }";
                           settledAt := 1 |}] |}]
  /\ watch sampleHost [] [] [(sampleDisk, 0, "alice/foo.ts")]
     = [Some samplePrivateOutcome]
  /\ watch sampleHost [] []
       [(sampleDisk, 0, "foo.ts"); (sampleDisk, 0, "alice/foo.ts")]
     = [Some sampleOutcome;
        Some {| source := ["alice"; "foo.ts"];
                info := {| file := "alice/foo.ts";
                           users := ["alice"; "alice"; "bob"; "carol"];
                           minLength := 19; error := None |};
                writes := [{| target := scriptPath "alice" "foo";
                              data := "function () { return 2 }";
                              settledAt := 1 |}] |}].
Proof. repeat split; reflexivity. Qed.

(** ** The map [macros] *)

Lemma mapGet_mapSet {V : Type} (m : list (string * V)) (key k : string) (v : V) :
  mapGet (mapSet m key v) k = if String.eqb key k then Some v else mapGet m k.
Proof.
  induction m as [|[k0 v0] m IH]; cbn [mapSet mapGet].
  - rewrite String.eqb_sym. reflexivity.
  - destruct (String.eqb_spec k0 key) as [-> | Hne]; cbn [mapGet].
    + destruct (String.eqb key k); reflexivity.
    + rewrite IH. destruct (String.eqb_spec k0 k) as [-> | Hne']; [| reflexivity].
      apply String.eqb_neq in Hne. rewrite String.eqb_sym in Hne. now rewrite Hne.
Qed.

Lemma considerMacro_get macros n body t k :
  mapGet (considerMacro macros n body t) k
  = if String.eqb n k
    then match mapGet macros n with
         | Some cur => if date cur <? t
                       then Some {| macro := body; date := t |}
                       else Some cur
         | None => Some {| macro := body; date := t |}
         end
    else mapGet macros k.
Proof.
  unfold considerMacro. destruct (mapGet macros n) as [cur|] eqn:E.
  - destruct (date cur <? t).
    + apply mapGet_mapSet.
    + destruct (String.eqb_spec n k) as [<- | Hne]; [exact E | reflexivity].
  - apply mapGet_mapSet.
Qed.

(** ** The loop over the lines of a macro file *)

Lemma skipn_pairUp (i : nat) (lines : list string) :
  2 * i + 1 < length lines ->
  skipn i (pairUp lines)
  = (nth (i * 2) lines EmptyString, nth (i * 2 + 1) lines EmptyString)
    :: skipn (S i) (pairUp lines).
Proof.
  revert lines. induction i as [|i IH]; intros [|a [|b rest]] H;
    cbn [length] in H; try lia.
  - reflexivity.
  - cbn [pairUp skipn]. rewrite IH by lia.
    replace (S i * 2) with (S (S (i * 2))) by lia.
    replace (S (S (i * 2)) + 1) with (S (S (i * 2 + 1))) by lia.
    reflexivity.
Qed.

Lemma readPairs_closed lines t fuel i macros :
  (length lines - 1) / 2 <= i + fuel ->
  readPairs fuel i lines t macros
  = fold_left (fun m p => considerMacro m (fst p) (snd p) t)
      (firstn ((length lines - 1) / 2 - i) (skipn i (pairUp lines))) macros.
Proof.
  revert i macros. induction fuel as [|fuel IH]; intros i macros Hf.
  - replace ((length lines - 1) / 2 - i) with 0 by lia. reflexivity.
  - cbn [readPairs]. destruct (2 * i + 2 <? length lines) eqn:E.
    + apply Nat.ltb_lt in E.
      assert (Hi : i < (length lines - 1) / 2).
      { apply Nat.div_le_lower_bound; lia. }
      rewrite IH by lia. rewrite (skipn_pairUp i lines) by lia.
      replace ((length lines - 1) / 2 - i)
        with (S ((length lines - 1) / 2 - S i)) by lia.
      reflexivity.
    + apply Nat.ltb_ge in E.
      assert (Hi : (length lines - 1) / 2 <= i).
      { destruct (Nat.le_gt_cases ((length lines - 1) / 2) i) as [Hle | Hgt];
          [exact Hle | exfalso].
        assert (2 * S i <= length lines - 1)
          by (etransitivity; [| apply (Nat.Div0.mul_div_le _ 2)];
              apply Nat.mul_le_mono_l; lia).
        lia. }
      replace ((length lines - 1) / 2 - i) with 0 by lia. reflexivity.
Qed.

Lemma readMacroFile_closed text t macros :
  readMacroFile text t macros
  = fold_left (fun m p => considerMacro m (fst p) (snd p) t)
      (fileRecords text) macros.
Proof.
  unfold readMacroFile, fileRecords.
  rewrite readPairs_closed.
  - now rewrite Nat.sub_0_r.
  - etransitivity; [apply Nat.Div0.div_le_upper_bound with (q := length (splitBy LF text)) |];
      lia.
Qed.

(** ** Texts made of newline-terminated lines *)

Lemma splitBy_line (s rest : string) :
  hasNewline s = false ->
  splitBy LF (s +:+ String LF rest) = s :: splitBy LF rest.
Proof.
  induction s as [|c s IH]; intros H.
  - reflexivity.
  - cbn [hasNewline list_ascii_of_string existsb] in H.
    apply orb_false_iff in H as [Hc Hs].
    rewrite append_cons. cbn [splitBy].
    rewrite Ascii.eqb_sym, Hc. fold (hasNewline s) in Hs. now rewrite IH.
Qed.

Lemma splitBy_macroText (pairs : list (string * string)) :
  noNewline pairs = true ->
  splitBy LF (macroText pairs)
  = flat_map (fun p => [fst p; snd p]) pairs ++ [EmptyString].
Proof.
  induction pairs as [|[n b] pairs IH]; intros H; [reflexivity |].
  unfold noNewline in H. cbn [forallb fst snd] in H.
  apply andb_true_iff in H as [Hnb Hrest].
  apply andb_true_iff in Hnb as [Hn Hb].
  apply negb_true_iff in Hn, Hb.
  cbn [macroText flat_map fst snd].
  rewrite (splitBy_line n _ Hn), (splitBy_line b _ Hb), (IH Hrest).
  reflexivity.
Qed.

Lemma pairUp_flat (pairs : list (string * string)) (last' : string) :
  pairUp (flat_map (fun p => [fst p; snd p]) pairs ++ [last']) = pairs.
Proof.
  induction pairs as [|[n b] pairs IH]; [reflexivity |].
  cbn [flat_map fst snd app pairUp]. now rewrite IH.
Qed.

Lemma length_flat (pairs : list (string * string)) (last' : string) :
  length (flat_map (fun p => [fst p; snd p]) pairs ++ [last'])
  = length pairs * 2 + 1.
Proof.
  induction pairs as [|[n b] pairs IH]; [reflexivity |].
  cbn [flat_map fst snd app length]. rewrite IH. lia.
Qed.

Lemma fileRecords_macroText (pairs : list (string * string)) :
  noNewline pairs = true -> fileRecords (macroText pairs) = pairs.
Proof.
  intros H. unfold fileRecords. rewrite (splitBy_macroText pairs H).
  rewrite pairUp_flat, length_flat.
  replace (length pairs * 2 + 1 - 1) with (length pairs * 2) by lia.
  rewrite Nat.div_mul by lia. apply firstn_all.
Qed.

(** ** The scan of the hackmud directory *)

Lemma fold_left_mapped {A B C : Type} (f : A -> C -> A) (g : B -> C)
    (l : list B) (a : A) :
  fold_left f (map g l) a = fold_left (fun a x => f a (g x)) l a.
Proof.
  revert a. induction l as [|x l IH]; intros a; [reflexivity |]. apply IH.
Qed.

Lemma scanMacros_acc d entries macros users :
  fold_left
    (fun '(macros, users) entry =>
       if isFile entry then
         let ext := extname (name entry) in
         if String.eqb ext ".macros"
         then (readMacroFile (hackmudText d (name entry)) (mtime d (name entry)) macros,
               users)
         else if String.eqb ext ".key"
         then (macros, users ++ [basename (name entry) ".key"])
         else (macros, users)
       else (macros, users))
    entries (macros, users)
  = (fold_left consider
       (flat_map (fun entry =>
                    if isMacroFile entry
                    then map (fun p => (fst p, snd p, mtime d (name entry)))
                           (fileRecords (hackmudText d (name entry)))
                    else [])
          entries)
       macros,
     users
     ++ map (fun a => basename (name a) ".key")
          (List.filter
             (fun a => isFile a && String.eqb (extname (name a)) ".key")
             entries)).
Proof.
  revert macros users.
  induction entries as [|e entries IH]; intros macros users;
    cbn [fold_left flat_map List.filter map].
  - now rewrite app_nil_r.
  - unfold isMacroFile at 1. destruct (isFile e); cbn [andb]; [| apply IH].
    cbv zeta.
    destruct (String.eqb_spec (extname (name e)) ".macros") as [Hm | Hm].
    + rewrite IH, fold_left_app, readMacroFile_closed, fold_left_mapped.
      rewrite Hm. reflexivity.
    + destruct (String.eqb (extname (name e)) ".key"); rewrite IH; cbn [map];
        [now rewrite <- app_assoc | reflexivity].
Qed.

Lemma scanMacros_closed d :
  scanMacros d = (fold_left consider (candidates d) [], keyUsers d).
Proof. unfold scanMacros. now rewrite scanMacros_acc. Qed.

(** ** The merged text *)

Lemma append_assoc (a b c : string) : (a +:+ b) +:+ c = a +:+ (b +:+ c).
Proof.
  induction a as [|x a IH]; [reflexivity |].
  rewrite !append_cons. now rewrite IH.
Qed.

Lemma mergeMacros_closed sorted text count :
  mergeMacros sorted text count
  = if existsb (fun e => isEmpty (macro (snd e))) sorted
    then None
    else Some (text +:+ macroBlocks (keptMacros sorted),
               count + length (keptMacros sorted)).
Proof.
  revert text count.
  induction sorted as [|[n e] sorted IH]; intros text count.
  - cbn [mergeMacros existsb keptMacros List.filter macroBlocks map macroText length].
    f_equal. f_equal; [| lia].
    induction text as [|x text IHt]; [reflexivity |].
    rewrite append_cons. now rewrite <- IHt.
  - cbn [mergeMacros existsb keptMacros List.filter snd].
    destruct (macro e) as [|c body] eqn:E; [reflexivity |].
    cbn [startsLower isEmpty orb].
    destruct (Ascii.eqb c (toLowerCase c)).
    + rewrite IH. fold (keptMacros sorted).
      destruct (existsb (fun e0 => isEmpty (macro (snd e0))) sorted);
        [reflexivity |].
      f_equal. f_equal.
      * unfold macroBlocks. cbn [map macroText fst snd]. rewrite E.
        rewrite !append_assoc, !append_cons, !append_assoc, !append_cons.
        reflexivity.
      * cbn [length]. lia.
    + rewrite IH. reflexivity.
Qed.

Lemma syncMacros_closed d :
  syncMacros d
  = let best := sortByName (fold_left consider (candidates d) []) in
    if existsb (fun e => isEmpty (macro (snd e))) best
    then None
    else Some {| macroFile := macroBlocks (keptMacros best);
                 written := map (fun user => ([user +:+ ".macros"],
                                              macroBlocks (keptMacros best)))
                              (keyUsers d);
                 macrosSynced := length (keptMacros best);
                 usersSynced := length (keyUsers d) |}.
Proof.
  unfold syncMacros. rewrite scanMacros_closed, mergeMacros_closed. cbv zeta.
  destruct (existsb _ _); reflexivity.
Qed.

(** ** The claims about [syncMacros] *)

(** C3, as stated, fails: from the records ("Beta", "z") and
    ("gamma", "w") of one file, the merged text holds both, although the
    name [Beta] starts with a capital. *)
Lemma syncMacros_keeps_capitalised_name :
  syncMacros (macroDisk (macroText [("Beta", "z"); ("gamma", "w")]))
  = Some {| macroFile := macroText [("Beta", "z"); ("gamma", "w")];
            written := [(["alice.macros"],
                         macroText [("Beta", "z"); ("gamma", "w")])];
            macrosSynced := 2;
            usersSynced := 1 |}
  /\ nameStartsLower "Beta" = false.
Proof. split; reflexivity. Qed.

(** C3, amended.  When the best-by-name records all have a body that is
    not empty, [syncMacros] returns, and the merged text is made of the
    blocks of those records, in the order of their names, whose body (not
    name) starts with a character equal to its lowercase form; the count
    returned is their number, and that text is written to the macro file
    of every known user. *)
Theorem syncMacros_filters_on_body d :
  existsb (fun e => isEmpty (macro (snd e))) (sortByName (fst (scanMacros d)))
  = false ->
  syncMacros d
  = Some {| macroFile := macroBlocks (keptMacros (sortByName (fst (scanMacros d))));
            written := map (fun user =>
                              ([user +:+ ".macros"],
                               macroBlocks
                                 (keptMacros (sortByName (fst (scanMacros d))))))
                         (keyUsers d);
            macrosSynced := length (keptMacros (sortByName (fst (scanMacros d))));
            usersSynced := length (keyUsers d) |}
  /\ forall e,
       In e (keptMacros (sortByName (fst (scanMacros d))))
       <-> In e (sortByName (fst (scanMacros d)))
           /\ exists c rest, macro (snd e) = String c rest /\ c = toLowerCase c.
Proof.
  intros Hne. split.
  - rewrite syncMacros_closed. rewrite scanMacros_closed in *.
    cbn [fst] in *. cbv zeta. now rewrite Hne.
  - intros e. unfold keptMacros. rewrite filter_In.
    split; intros [Hin H]; (split; [exact Hin |]).
    + destruct (macro (snd e)) as [|c rest]; [discriminate |].
      cbn [startsLower] in H.
      destruct (Ascii.eqb_spec c (toLowerCase c)) as [Hc | Hc]; [| discriminate].
      now exists c, rest.
    + destruct H as (c & rest & -> & Hc). cbn [startsLower].
      rewrite <- Hc. now rewrite Ascii.eqb_refl.
Qed.

Lemma syncMacros_filters_on_body_witness :
  (macroFile <$> syncMacros (macroDisk (macroText [("Beta", "z"); ("gamma", "W")])))
  = Some (macroText [("Beta", "z")])
  /\ (In ("Beta", {| macro := "z"; date := 1 |})
         (keptMacros
            (sortByName
               (fst (scanMacros
                       (macroDisk (macroText [("Beta", "z"); ("gamma", "W")]))))))
      <-> In ("Beta", {| macro := "z"; date := 1 |})
            (sortByName
               (fst (scanMacros
                       (macroDisk (macroText [("Beta", "z"); ("gamma", "W")])))))
          /\ exists c rest, String "z" EmptyString = String c rest
                            /\ c = toLowerCase c).
Proof.
  destruct (syncMacros_filters_on_body
              (macroDisk (macroText [("Beta", "z"); ("gamma", "W")])))
    as [Hs Hk].
  - reflexivity.
  - split.
    + rewrite Hs. reflexivity.
    + exact (Hk ("Beta", {| macro := "z"; date := 1 |})).
Defined.

(** Of a macro file whose lines all end with a newline, the last
    included, every pair is read, the last included, and is a candidate
    record with the modification time of the file. *)
Lemma terminated_macro_file_contributes_every_pair d entry pairs :
  In entry (hackmudRoot d) ->
  isMacroFile entry = true ->
  hackmudText d (name entry) = macroText pairs ->
  noNewline pairs = true ->
  (forall macros,
      readMacroFile (hackmudText d (name entry)) (mtime d (name entry)) macros
      = fold_left
          (fun m p => considerMacro m (fst p) (snd p) (mtime d (name entry)))
          pairs macros)
  /\ fst (scanMacros d) = fold_left consider (candidates d) []
  /\ forall p, In p pairs ->
               In (fst p, snd p, mtime d (name entry)) (candidates d).
Proof.
  intros Hin Hm Htext Hnl. split; [| split].
  - intros macros. rewrite readMacroFile_closed, Htext.
    now rewrite fileRecords_macroText.
  - now rewrite scanMacros_closed.
  - intros p Hp. unfold candidates. apply in_flat_map.
    exists entry. split; [exact Hin |]. rewrite Hm.
    apply in_map_iff. exists p. split; [reflexivity |].
    rewrite Htext. now rewrite fileRecords_macroText.
Qed.

(** C4.  The macro file [alice.macros] holds the four lines alpha, x,
    beta, y, the last without final newline: they pair up as alpha -> x
    and beta -> y, yet the loop reads alpha -> x only, no record is held
    for beta, and [syncMacros] writes the file back without it.  The same
    lines with a final newline give both records. *)
Theorem readMacroFile_drops_unterminated_pair :
  unterminated +:+ String LF EmptyString
  = macroText [("alpha", "x"); ("beta", "y")]
  /\ pairUp (splitBy LF unterminated) = [("alpha", "x"); ("beta", "y")]
  /\ fst (scanMacros (macroDisk unterminated))
     = [("alpha", {| macro := "x"; date := 1 |})]
  /\ mapGet (fst (scanMacros (macroDisk unterminated))) "beta" = None
  /\ syncMacros (macroDisk unterminated)
     = Some {| macroFile := macroText [("alpha", "x")];
               written := [(["alice.macros"], macroText [("alpha", "x")])];
               macrosSynced := 1;
               usersSynced := 1 |}
  /\ fst (scanMacros (macroDisk (unterminated +:+ String LF EmptyString)))
     = [("alpha", {| macro := "x"; date := 1 |});
        ("beta", {| macro := "y"; date := 1 |})].
Proof. repeat split; reflexivity. Qed.

(** C7.  A candidate record replaces the record the map holds for its
    name only when its time is strictly greater; other names are not
    touched.  So ("alpha", "x") at time 1 and ("alpha", "y") at time 2
    merge to alpha -> y in either order of scan, and of two records of
    equal time the one scanned first stays. *)
Theorem considerMacro_keeps_unless_strictly_newer :
  (forall macros n body t k,
      mapGet (considerMacro macros n body t) k
      = if String.eqb n k
        then match mapGet macros n with
             | Some cur => if date cur <? t
                           then Some {| macro := body; date := t |}
                           else Some cur
             | None => Some {| macro := body; date := t |}
             end
        else mapGet macros k)
  /\ (macroFile <$>
        syncMacros (twoMacroFiles (macroText [("alpha", "x")]) 1
                      (macroText [("alpha", "y")]) 2))
     = Some (macroText [("alpha", "y")])
  /\ (macroFile <$>
        syncMacros (twoMacroFiles (macroText [("alpha", "y")]) 2
                      (macroText [("alpha", "x")]) 1))
     = Some (macroText [("alpha", "y")])
  /\ (macroFile <$>
        syncMacros (twoMacroFiles (macroText [("alpha", "x")]) 1
                      (macroText [("alpha", "y")]) 1))
     = Some (macroText [("alpha", "x")]).
Proof.
  split; [exact considerMacro_get |]. repeat split; reflexivity.
Qed.

(** * Further properties *)

(** ** What [push] writes *)

Lemma pushPrivate_write h d now user e n w :
  In w (writes (pushPrivate h d now user e n)) ->
  processScript h (srcText d [user; name e]) = Resolved (data w)
  /\ data w <> EmptyString
  /\ error (info (pushPrivate h d now user e n)) = None
  /\ minLength (info (pushPrivate h d now user e n)) = hackmudLength (data w).
Proof.
  unfold pushPrivate, transform.
  destruct (processScript h (srcText d [user; name e])) as [text | reason].
  - destruct (isEmpty text) eqn:E; cbn [writes In]; [contradiction |].
    intros [<- | []]. cbn. apply isEmpty_false in E. now repeat split.
  - cbn [writes In]. contradiction.
Qed.

Lemma pushGlobal_write h d sk us now e n w :
  In w (writes (fst (pushGlobal h d sk us now e n))) ->
  processScript h (srcText d [name e]) = Resolved (data w)
  /\ data w <> EmptyString
  /\ error (info (fst (pushGlobal h d sk us now e n))) = None
  /\ minLength (info (fst (pushGlobal h d sk us now e n))) = hackmudLength (data w)
  /\ settledAt w
     = snd (pushGlobal h d sk us now e n) + latency h (WriteFile (target w)).
Proof.
  unfold pushGlobal, transform.
  destruct (processScript h (srcText d [name e])) as [text | reason].
  - destruct (isEmpty text) eqn:E; cbn [fst writes In]; [contradiction |].
    rewrite deployGlobal_eq. cbn [fst snd writes info error minLength
                                    setUsers setMinLength].
    intros Hw. apply in_map_iff in Hw as (u & <- & _).
    cbn. apply isEmpty_false in E. now repeat split.
  - cbn [fst writes In]. contradiction.
Qed.

(** X1.  Whatever [push] writes goes to the deployment path of a user
    that passes the user filter, under a logical name that passes the
    script filter. *)
Theorem push_writes_respect_filters h d userFilter scripts o w :
  In o (outcomes (push h d userFilter scripts)) ->
  In w (writes o) ->
  exists user n,
    target w = scriptPath user n
    /\ wanted userFilter user = true
    /\ wanted scripts n = true.
Proof.
  intros Hin Hw.
  apply push_outcome_cases in Hin
    as [(dir & e & _ & Hd & _ & Hs & ->) | (e & _ & Hs & ->)].
  - apply pushPrivate_writes in Hw as [Ht _].
    exists (name dir), (logicalName e).
    apply andb_true_iff in Hd as [_ Hd]. apply andb_true_iff in Hs as [_ Hs].
    now repeat split.
  - apply pushGlobal_writes in Hw as (u & Hu & _ & Ht).
    exists u, (logicalName e).
    apply andb_true_iff in Hs as [_ Hs].
    repeat split; [exact Ht | now apply (wanted_effective d) | exact Hs].
Qed.

Lemma push_writes_respect_filters_witness :
  exists user n,
    target {| target := ["bob"; "scripts"; "foo.js"];
              data := "function () { return 1 }"; settledAt := 1 |}
    = scriptPath user n
    /\ wanted ["bob"] user = true
    /\ wanted ["foo"] n = true.
Proof.
  apply (push_writes_respect_filters sampleHost sampleDisk ["bob"] ["foo"]
           sampleOutcome).
  - in_list.
  - in_list.
Defined.

(** X2.  What [push] writes is the text [processScript] resolved to for
    the source file of the callback, and that text is not empty; the
    [Info] of the callback then carries no error and the length of that
    text without blanks. *)
Theorem push_writes_transformed_text h d userFilter scripts o w :
  In o (outcomes (push h d userFilter scripts)) ->
  In w (writes o) ->
  processScript h (srcText d (source o)) = Resolved (data w)
  /\ data w <> EmptyString
  /\ error (info o) = None
  /\ minLength (info o) = hackmudLength (data w).
Proof.
  intros Hin Hw.
  apply push_outcome_cases in Hin
    as [(dir & e & _ & _ & _ & _ & ->) | (e & _ & _ & ->)].
  - rewrite pushPrivate_source. now apply pushPrivate_write.
  - rewrite pushGlobal_source.
    apply pushGlobal_write in Hw as (H1 & H2 & H3 & H4 & _). now repeat split.
Qed.

Lemma push_writes_transformed_text_witness :
  processScript sampleHost (srcText sampleDisk (source samplePrivateOutcome))
  = Resolved "function () { return 2 }"
  /\ minLength (info samplePrivateOutcome)
     = hackmudLength "function () { return 2 }".
Proof.
  destruct (push_writes_transformed_text sampleHost sampleDisk [] []
              samplePrivateOutcome
              {| target := ["alice"; "scripts"; "foo.js"];
                 data := "function () { return 2 }"; settledAt := 1 |})
    as (H1 & _ & _ & H2).
  - in_list.
  - in_list.
  - split; [exact H1 | exact H2].
Defined.

(** X3.  The [Info] of a callback of [push] and its writes agree: with
    no error, there is one write per user of [info.users], in that
    order, each to the deployment path of that user; with an error,
    there is no write and the length reported is 0. *)
Theorem push_info_matches_writes h d userFilter scripts o :
  In o (outcomes (push h d userFilter scripts)) ->
  (error (info o) = None
   /\ exists n,
        map target (writes o) = map (fun u => scriptPath u n) (users (info o)))
  \/ (error (info o) <> None /\ writes o = [] /\ minLength (info o) = 0).
Proof.
  intros Hin.
  apply push_outcome_cases in Hin
    as [(dir & e & _ & _ & _ & _ & ->) | (e & _ & _ & ->)].
  - unfold pushPrivate, transform.
    destruct (processScript h (srcText d [name dir; name e])) as [text | reason].
    + destruct (isEmpty text); cbn.
      * right. now repeat split.
      * left. split; [reflexivity |]. now exists (logicalName e).
    + right. cbn. now repeat split.
  - unfold pushGlobal, transform.
    destruct (processScript h (srcText d [name e])) as [text | reason].
    + destruct (isEmpty text).
      * right. cbn. now repeat split.
      * left. rewrite deployGlobal_eq. cbn. split; [reflexivity |].
        exists (logicalName e). now rewrite List.map_map.
    + right. cbn. now repeat split.
Qed.

Lemma push_info_matches_writes_witness :
  (error (info sampleOutcome) = None
   /\ exists n,
        map target (writes sampleOutcome)
        = map (fun u => scriptPath u n) (users (info sampleOutcome)))
  \/ (error (info sampleOutcome) <> None /\ writes sampleOutcome = []
      /\ minLength (info sampleOutcome) = 0).
Proof.
  apply (push_info_matches_writes sampleHost sampleDisk [] [] sampleOutcome).
  in_list.
Defined.

(** ** What the promise of [push] waits for *)

Lemma allSettled_acc (promises : list Time) (now t : Time) :
  t <= now \/ In t promises -> t <= allSettled now promises.
Proof.
  unfold allSettled. revert now.
  induction promises as [|p promises IH]; intros now [H | H]; cbn [fold_left].
  - exact H.
  - contradiction.
  - apply IH. left. lia.
  - destruct H as [<- | H]; apply IH; [left; lia | now right].
Qed.

(** X4.  The promise of [push] of every run resolves only once the
    source directory is listed, the users are known, every folder that
    passes the user filter has been scanned, and every root-level script
    that passes the script filter has been read and transformed after the
    last of those scans; a write of a global script settles no later than
    the duration of that write after the promise has resolved. *)
Theorem push_waits_for_global_callbacks h d userFilter scripts :
  latency h (ReadDir SrcDir []) <= resolvedAt (push h d userFilter scripts)
  /\ (userFilter = [] ->
      latency h (ReadDir SrcDir []) + latency h (ReadDir HackmudDir [])
      <= resolvedAt (push h d userFilter scripts))
  /\ (forall dir,
         In dir (srcRoot d) -> isDirectory dir = true ->
         wanted userFilter (name dir) = true ->
         latency h (ReadDir SrcDir []) + latency h (ReadDir SrcDir [name dir])
         <= scannedAllAt h d userFilter scripts)
  /\ scannedAllAt h d userFilter scripts <= resolvedAt (push h d userFilter scripts)
  /\ (forall e,
         In e (srcRoot d) -> isScript e = true ->
         wanted scripts (logicalName e) = true ->
         scannedAllAt h d userFilter scripts
         + latency h (ReadFile SrcDir [name e])
         + latency h (ProcessScript (srcText d [name e]))
         <= resolvedAt (push h d userFilter scripts))
  /\ forall o f w,
       In o (outcomes (push h d userFilter scripts)) ->
       source o = [f] ->
       In w (writes o) ->
       settledAt w
       <= resolvedAt (push h d userFilter scripts)
          + latency h (WriteFile (target w)).
Proof.
  assert (Hk : usersKnownAt h userFilter <= scannedAllAt h d userFilter scripts).
  { unfold scannedAllAt. apply allSettled_acc. now left. }
  assert (Hl : listedAt h <= usersKnownAt h userFilter).
  { unfold usersKnownAt. destruct userFilter; lia. }
  assert (Hs : scannedAllAt h d userFilter scripts
               <= resolvedAt (push h d userFilter scripts)).
  { rewrite push_resolvedAt. apply allSettled_acc. now left. }
  fold (listedAt h).
  split; [lia |]. split; [| split; [| split; [exact Hs | split]]].
  - intros ->. cbn [usersKnownAt] in Hk. lia.
  - intros dir Hin Hd Hu. rewrite scannedAllAt_closed.
    apply allSettled_acc. right. apply in_map_iff.
    exists dir. split; [reflexivity |]. apply filter_In.
    split; [exact Hin |]. unfold wantedFolder. now rewrite Hd, Hu.
  - intros e Hin He Hw. rewrite push_resolvedAt_closed.
    apply allSettled_acc. right. apply in_map_iff.
    exists e. split; [reflexivity |]. apply filter_In.
    split; [exact Hin |]. unfold wantedScript. now rewrite He, Hw.
  - intros o f w Hin Hsrc Hw. rewrite push_resolvedAt.
    apply push_outcome_cases in Hin
      as [(dir & e & _ & _ & _ & _ & ->) | (e & He & Hse & ->)].
    + rewrite pushPrivate_source in Hsrc. discriminate.
    + apply pushGlobal_write in Hw as (_ & _ & _ & _ & ->).
      apply Nat.add_le_mono_r, allSettled_acc. right.
      apply in_map_iff.
      exists (pushGlobal h d (finalSkips h d userFilter scripts)
                (effectiveUsers d userFilter)
                (scannedAllAt h d userFilter scripts) e (logicalName e)).
      split; [reflexivity |]. unfold globalOf. apply in_map_iff.
      exists e. split; [reflexivity |]. apply filter_In. now split.
Qed.

Lemma push_waits_for_global_callbacks_witness :
  resolvedAt (push slowHost sampleDisk [] []) = 12
  /\ 2 + 2 <= scannedAllAt slowHost sampleDisk [] []
  /\ scannedAllAt slowHost sampleDisk [] [] + 3 + 5
     <= resolvedAt (push slowHost sampleDisk [] [])
  /\ 19 <= resolvedAt (push slowHost sampleDisk [] []) + 7.
Proof.
  destruct (push_waits_for_global_callbacks slowHost sampleDisk [] [])
    as (_ & _ & Hd & _ & Hg & Hw).
  split; [reflexivity |]. split; [| split].
  - apply (Hd (aFolder "alice")); [in_list | reflexivity | reflexivity].
  - apply (Hg (aFile "foo.ts")); [in_list | reflexivity | reflexivity].
  - apply (Hw {| source := ["foo.ts"];
                 info := {| file := "foo.ts"; users := ["bob"];
                            minLength := 19; error := None |};
                 writes := [{| target := ["bob"; "scripts"; "foo.js"];
                               data := "function () { return 1 }";
                               settledAt := 19 |}] |}
              "foo.ts"
              {| target := ["bob"; "scripts"; "foo.js"];
                 data := "function () { return 1 }"; settledAt := 19 |}).
    + in_list.
    + reflexivity.
    + in_list.
Defined.

(** ** The rescan of the overrides by [watch] *)

Lemma wantedScript_nil (e : Dirent) : wantedScript [] e = isScript e.
Proof. unfold wantedScript. cbn [wanted]. apply andb_true_r. Qed.

Lemma wantedFolder_nil (dir : Dirent) : wantedFolder [] dir = isDirectory dir.
Proof. unfold wantedFolder. cbn [wanted]. apply andb_true_r. Qed.

Lemma scanOverrides_inner (owner : string) (entries : list Dirent)
    (sk : gmap string (list string)) (n : string) :
  skipOf
    (fold_left
       (fun skips entry =>
          if isFile entry then
            let ext := extname (name entry) in
            if includes supportedExtensions ext
            then addSkip skips (basename (name entry) ext) owner
            else skips
          else skips)
       entries sk) n
  = skipOf sk n
    ++ map (fun _ => owner)
         (List.filter
            (fun e => wantedScript [] e && String.eqb (logicalName e) n)
            entries).
Proof.
  revert sk. induction entries as [|e entries IH]; intros sk;
    cbn [fold_left List.filter map].
  - now rewrite app_nil_r.
  - rewrite IH. rewrite wantedScript_nil. unfold isScript. cbv zeta.
    destruct (isFile e); cbn [andb]; [| reflexivity].
    destruct (includes supportedExtensions (extname (name e))); cbn [andb];
      [| reflexivity].
    fold (logicalName e). rewrite addSkip_skipOf.
    destruct (String.eqb_spec (logicalName e) n) as [<- | Hne]; cbn [map];
      [now rewrite <- app_assoc | reflexivity].
Qed.

Lemma scanOverrides_acc h d now dirs sk promises n :
  skipOf
    (fst (fold_left
            (fun '(skips, promisesSkips) dir =>
               if isDirectory dir
               then (fold_left
                       (fun skips entry =>
                          if isFile entry then
                            let ext := extname (name entry) in
                            if includes supportedExtensions ext
                            then addSkip skips (basename (name entry) ext)
                                   (name dir)
                            else skips
                          else skips)
                       (srcSub d (name dir)) skips,
                     promisesSkips
                     ++ [now + latency h (ReadDir SrcDir [name dir])])
               else (skips, promisesSkips))
            dirs (sk, promises))) n
  = skipOf sk n ++ ownersAmong d [] [] n dirs.
Proof.
  revert sk promises. induction dirs as [|dir dirs IH]; intros sk promises;
    cbn [fold_left ownersAmong flat_map].
  - now rewrite app_nil_r.
  - rewrite wantedFolder_nil. destruct (isDirectory dir).
    + etransitivity; [apply IH |].
      rewrite scanOverrides_inner. unfold ownersIn, ownersAmong.
      now rewrite <- app_assoc.
    + apply IH.
Qed.

(** The rescan finds, for a name, the owners [push] without filters
    registers. *)
Lemma scanOverrides_skips h d now n :
  skipOf (fst (scanOverrides h d now)) n = ownersAmong d [] [] n (srcRoot d).
Proof.
  unfold scanOverrides. rewrite scanOverrides_acc.
  unfold skipOf. now rewrite lookup_empty.
Qed.

Lemma not_skipped_watch h d now userFilter n user :
  In user
    (List.filter
       (fun u => negb (includes (skipOf (fst (scanOverrides h d now)) n) u))
       (effectiveUsers d userFilter))
  <-> In user (effectiveUsers d userFilter) /\ overrides d user n = false.
Proof.
  rewrite filter_In, negb_true_iff, includes_false, scanOverrides_skips.
  rewrite (owners_overrides d [] [] n user eq_refl eq_refl).
  now rewrite not_true_iff_false.
Qed.

(** A processed change of a global script whose transformation gives a
    non-empty text. *)
Lemma changeGlobal_ok h d scripts now userFilter path n minCode :
  wanted scripts n = true ->
  processScript h (srcText d [path]) = Resolved minCode ->
  minCode <> EmptyString ->
  exists sk t,
    (forall n', skipOf sk n' = ownersAmong d [] [] n' (srcRoot d))
    /\ changeGlobal h d scripts now userFilter path n
       = (effectiveUsers d userFilter,
          Some {| source := [path];
                  info := {| file := path;
                             users := List.filter
                                        (fun u => negb (includes (skipOf sk n) u))
                                        (effectiveUsers d userFilter);
                             minLength := hackmudLength minCode;
                             error := None |};
                  writes := map (fun u => writeFilePersist h t (scriptPath u n)
                                            minCode)
                              (List.filter
                                 (fun u => negb (includes (skipOf sk n) u))
                                 (effectiveUsers d userFilter)) |}).
Proof.
  intros Hn Hp Hne. unfold changeGlobal. rewrite Hn.
  pose proof (scanOverrides_skips h d
                (now + latency h (ReadFile SrcDir [path])
                 + latency h (ReadDir SrcDir []))) as Hsk.
  destruct (scanOverrides h d _) as [sk promisesSkips]. cbn [fst] in Hsk.
  rewrite (transform_resolved _ _ _ Hp).
  apply isEmpty_false in Hne. rewrite Hne.
  change (default [] (sk !! n)) with (skipOf sk n).
  exists sk. destruct userFilter as [|u us]; rewrite deployGlobal_eq;
    eexists; (split; [exact Hsk | reflexivity]).
Qed.

Lemma onChange_global h d scripts now userFilter path :
  includes supportedExtensions (extname path) = true ->
  splitBy SLASH path = [path] ->
  onChange h d scripts now userFilter path
  = changeGlobal h d scripts now userFilter path (basename path (extname path)).
Proof. intros He Hs. unfold onChange. now rewrite He, Hs. Qed.

(** ** The length reported *)

(** C10.  Every script that is transformed to a non-empty text gets an
    [Info] whose [minLength] is the number of characters of that text
    that are neither a space, a newline nor a carriage return: [push]
    reports such an [Info] for every root-level script and for every
    script in a user's folder that pass the filters, and the handler of
    [watch] reports one for the changed file.  For every [Info] the engine
    reports for such a file, the value is the length of the text with
    those characters removed, that is the length of the text written to
    disk less their number. *)
Theorem minLength_counts_non_blank h d minCode :
  minCode <> EmptyString ->
  (forall userFilter scripts entry,
      In entry (srcRoot d) -> isScript entry = true ->
      wanted scripts (logicalName entry) = true ->
      processScript h (srcText d [name entry]) = Resolved minCode ->
      exists o,
        In o (outcomes (push h d userFilter scripts))
        /\ source o = [name entry]
        /\ error (info o) = None
        /\ minLength (info o) = countNonBlank minCode)
  /\ (forall userFilter scripts dir entry,
         In dir (srcRoot d) -> isDirectory dir = true ->
         wanted userFilter (name dir) = true ->
         In entry (srcSub d (name dir)) -> isScript entry = true ->
         wanted scripts (logicalName entry) = true ->
         processScript h (srcText d [name dir; name entry]) = Resolved minCode ->
         exists o,
           In o (outcomes (push h d userFilter scripts))
           /\ source o = [name dir; name entry]
           /\ error (info o) = None
           /\ minLength (info o) = countNonBlank minCode)
  /\ (forall scripts now userFilter path,
         includes supportedExtensions (extname path) = true ->
         wanted scripts (basename path (extname path)) = true ->
         (splitBy SLASH path = [path]
          \/ exists user rest, splitBy SLASH path = [user; rest]
                               /\ wanted userFilter user = true) ->
         processScript h (srcText d (splitBy SLASH path)) = Resolved minCode ->
         exists users' o,
           onChange h d scripts now userFilter path = (users', Some o)
           /\ source o = splitBy SLASH path
           /\ error (info o) = None
           /\ minLength (info o) = countNonBlank minCode)
  /\ (forall o,
         reported h d o ->
         processScript h (srcText d (source o)) = Resolved minCode ->
         minLength (info o) = countNonBlank minCode
         /\ minLength (info o) = String.length (stripBlanks minCode)
         /\ minLength (info o) + countBlank minCode = String.length minCode
         /\ forall w, In w (writes o) -> data w = minCode).
Proof.
  intros Hne. split; [| split; [| split]].
  - intros userFilter scripts entry Hin Hs Hw Hp.
    assert (Hws : wantedScript scripts entry = true).
    { unfold wantedScript. now rewrite Hs, Hw. }
    pose proof (push_global_present h d userFilter scripts entry Hin Hws) as Ho.
    destruct (push_outcome_ok h d userFilter scripts [name entry] _ minCode
                Ho Hp Hne) as (Hm & He & _).
    apply in_outcomesOf in Ho. destruct Ho as [Ho Hsrc].
    eexists. split; [exact Ho |]. split; [exact Hsrc |].
    split; [exact He |]. rewrite Hm. apply hackmudLength_countNonBlank.
  - intros userFilter scripts dir entry Hdir Hd Hu Hin Hs Hw Hp.
    assert (Hws : wantedScript scripts entry = true).
    { unfold wantedScript. now rewrite Hs, Hw. }
    assert (Hwf : wantedFolder userFilter dir = true).
    { unfold wantedFolder. now rewrite Hd, Hu. }
    pose proof (push_private_present h d userFilter scripts dir entry
                  Hdir Hwf Hin Hws) as Ho.
    destruct (push_outcome_ok h d userFilter scripts [name dir; name entry] _
                minCode Ho Hp Hne) as (Hm & He & _).
    apply in_outcomesOf in Ho. destruct Ho as [Ho Hsrc].
    eexists. split; [exact Ho |]. split; [exact Hsrc |].
    split; [exact He |]. rewrite Hm. apply hackmudLength_countNonBlank.
  - intros scripts now userFilter path Hext Hw [Hg | (user & rest & Hparts & Hu)] Hp.
    + rewrite Hg in Hp |- *.
      rewrite (onChange_global h d scripts now userFilter path Hext Hg).
      destruct (changeGlobal_ok h d scripts now userFilter path
                  (basename path (extname path)) minCode Hw Hp Hne)
        as (sk & t & _ & ->).
      eexists. eexists. split; [reflexivity |].
      split; [reflexivity |]. split; [reflexivity |].
      apply hackmudLength_countNonBlank.
    + rewrite Hparts in Hp |- *.
      rewrite (onChange_private h d scripts now userFilter path user rest
                 Hext Hparts).
      rewrite (changePrivate_ok h d scripts now userFilter path
                 (basename path (extname path)) [user; rest] user minCode
                 Hu Hw Hp Hne).
      eexists. eexists. split; [reflexivity |].
      split; [reflexivity |]. split; [reflexivity |].
      apply hackmudLength_countNonBlank.
  - intros o Hr Hp.
    assert (H : minLength (info o) = hackmudLength minCode
                /\ forall w, In w (writes o) -> data w = minCode).
    { destruct Hr as [userFilter scripts o Hin | scripts now userFilter path users' o Hev].
      - assert (Ho : In o (outcomesOf (push h d userFilter scripts) (source o)))
          by now apply in_outcomesOf.
        destruct (push_outcome_ok h d userFilter scripts (source o) o minCode Ho Hp Hne)
          as (Hm & _ & Hw).
        now split.
      - now apply (onChange_some h d scripts now userFilter path users' o minCode). }
    destruct H as [Hm Hw]. rewrite Hm.
    split; [apply hackmudLength_countNonBlank |].
    split; [reflexivity |].
    split; [| exact Hw].
    rewrite hackmudLength_countNonBlank. apply countBlank_countNonBlank.
Qed.

Lemma minLength_counts_non_blank_witness :
  (exists o,
      In o (outcomes (push sampleHost sampleDisk [] []))
      /\ source o = ["foo.ts"]
      /\ error (info o) = None
      /\ minLength (info o) = countNonBlank "function () { return 1 }")
  /\ (exists users' o,
         onChange sampleHost sampleDisk [] 0 [] "foo.ts" = (users', Some o)
         /\ source o = splitBy SLASH "foo.ts"
         /\ error (info o) = None
         /\ minLength (info o) = countNonBlank "function () { return 1 }")
  /\ minLength (info sampleOutcome) = countNonBlank "function () { return 1 }"
  /\ minLength (info sampleOutcome) + countBlank "function () { return 1 }"
     = String.length "function () { return 1 }".
Proof.
  destruct (minLength_counts_non_blank sampleHost sampleDisk
              "function () { return 1 }") as (Hg & _ & Hw & Hr).
  - discriminate.
  - split; [| split].
    + apply (Hg [] [] (aFile "foo.ts")); [in_list | reflexivity ..].
    + apply (Hw [] 0 [] "foo.ts"); [reflexivity | reflexivity | | reflexivity].
      left. reflexivity.
    + destruct (Hr sampleOutcome) as (H1 & _ & H2 & _).
      * apply (reported_by_push sampleHost sampleDisk [] []). in_list.
      * reflexivity.
      * split; [exact H1 | exact H2].
Defined.

(** X5.  The change of a global script that passes the script filter and
    transforms to a non-empty text is written to the deployment path of
    its logical name for exactly the effective users that hold no private
    override for that name, the overrides being those of every folder of
    the source directory, whatever the filters; [info.users] lists the
    same users, and [users] becomes the effective user set. *)
Theorem watch_global_targets h d scripts now userFilter path minCode :
  includes supportedExtensions (extname path) = true ->
  splitBy SLASH path = [path] ->
  wanted scripts (basename path (extname path)) = true ->
  processScript h (srcText d [path]) = Resolved minCode ->
  minCode <> EmptyString ->
  exists o,
    onChange h d scripts now userFilter path
    = (effectiveUsers d userFilter, Some o)
    /\ (forall user,
           writtenTo o (basename path (extname path)) user
           <-> In user (effectiveUsers d userFilter)
               /\ overrides d user (basename path (extname path)) = false)
    /\ (forall user,
           In user (users (info o))
           <-> In user (effectiveUsers d userFilter)
               /\ overrides d user (basename path (extname path)) = false)
    /\ (forall w, In w (writes o) -> data w = minCode).
Proof.
  intros He Hs Hn Hp Hne. rewrite (onChange_global _ _ _ _ _ _ He Hs).
  destruct (changeGlobal_ok h d scripts now userFilter path _ minCode Hn Hp Hne)
    as (sk & t & Hsk & ->).
  eexists. split; [reflexivity |].
  assert (Hf : forall user,
             In user (List.filter
                        (fun u => negb (includes
                                          (skipOf sk (basename path (extname path)))
                                          u))
                        (effectiveUsers d userFilter))
             <-> In user (effectiveUsers d userFilter)
                 /\ overrides d user (basename path (extname path)) = false).
  { intros user. rewrite filter_In, negb_true_iff, includes_false, Hsk.
    rewrite (owners_overrides d [] [] _ user eq_refl eq_refl).
    now rewrite not_true_iff_false. }
  split; [| split].
  - intros user. unfold writtenTo. cbn [writes]. rewrite List.map_map.
    cbn [target writeFilePersist]. rewrite in_scriptPaths. apply Hf.
  - intros user. cbn [info users]. apply Hf.
  - intros w Hw. cbn [writes] in Hw. apply in_map_iff in Hw as (u & <- & _).
    reflexivity.
Qed.

Lemma watch_global_targets_witness :
  exists o,
    onChange sampleHost sampleDisk [] 0 [] "foo.ts"
    = (effectiveUsers sampleDisk [], Some o)
    /\ (writtenTo o "foo" "bob"
        <-> In "bob" (effectiveUsers sampleDisk [])
            /\ overrides sampleDisk "bob" "foo" = false)
    /\ (writtenTo o "foo" "carol"
        <-> In "carol" (effectiveUsers sampleDisk [])
            /\ overrides sampleDisk "carol" "foo" = false).
Proof.
  destruct (watch_global_targets sampleHost sampleDisk [] 0 [] "foo.ts"
              "function () { return 1 }") as (o & Ho & Hw & _).
  - reflexivity.
  - reflexivity.
  - reflexivity.
  - reflexivity.
  - discriminate.
  - exists o. split; [exact Ho |]. split; apply Hw.
Defined.

(** ** [watch] and [push] on the same script *)

Lemma filter_skips_agree h d userFilter scripts n (sk : gmap string (list string)) :
  wanted scripts n = true ->
  (forall n', skipOf sk n' = ownersAmong d [] [] n' (srcRoot d)) ->
  List.filter
    (fun u => negb (includes (skipOf (finalSkips h d userFilter scripts) n) u))
    (effectiveUsers d userFilter)
  = List.filter (fun u => negb (includes (skipOf sk n) u))
      (effectiveUsers d userFilter).
Proof.
  intros Hn Hsk. apply filter_ext_in. intros u Hu. f_equal.
  apply eq_true_iff_eq. rewrite !includes_In.
  rewrite finalSkips_owners, Hsk.
  rewrite (owners_overrides d userFilter scripts n u
             (wanted_effective _ _ _ Hu) Hn).
  now rewrite (owners_overrides d [] [] n u eq_refl eq_refl).
Qed.

Lemma changeGlobal_failed h d scripts now userFilter path n :
  wanted scripts n = true ->
  transformFails h (srcText d [path]) = true ->
  changeGlobal h d scripts now userFilter path n
  = (userFilter,
     Some {| source := [path];
             info := {| file := path; users := []; minLength := 0;
                        error := Some match processScript h (srcText d [path]) with
                                      | Rejected reason => Reason reason
                                      | Resolved _ =>
                                          NewError "processed script was empty"
                                      end |};
             writes := [] |}).
Proof.
  intros Hn Hf. unfold changeGlobal, transformFails, transform in *. rewrite Hn.
  destruct (scanOverrides h d _) as [sk promisesSkips].
  destruct (processScript h (srcText d [path])) as [text | reason].
  - now rewrite Hf.
  - reflexivity.
Qed.

Lemma pushGlobal_failed_eq h d sk us now e n :
  transformFails h (srcText d [name e]) = true ->
  fst (pushGlobal h d sk us now e n)
  = {| source := [name e];
       info := {| file := name e; users := []; minLength := 0;
                  error := Some match processScript h (srcText d [name e]) with
                                | Rejected reason => Reason reason
                                | Resolved _ =>
                                    NewError "processed script was empty"
                                end |};
       writes := [] |}.
Proof.
  intros Hf. unfold pushGlobal, transformFails, transform in *.
  destruct (processScript h (srcText d [name e])) as [text | reason].
  - now rewrite Hf.
  - reflexivity.
Qed.

Lemma transformFails_false h code :
  transformFails h code = false ->
  exists text, processScript h code = Resolved text /\ text <> EmptyString.
Proof.
  unfold transformFails. destruct (processScript h code) as [text | reason];
    [| discriminate].
  intros H. exists text. split; [reflexivity | now apply isEmpty_false].
Qed.

(** X6.  A change event for a script of the source directory itself
    leaves the same [Info] and the same writes (paths and texts, in the
    same order) as a [push] with the same filters leaves for that
    script. *)
Theorem watch_global_agrees_with_push h d scripts now userFilter entry users' o o' :
  splitBy SLASH (name entry) = [name entry] ->
  onChange h d scripts now userFilter (name entry) = (users', Some o) ->
  In o' (outcomesOf (push h d userFilter scripts) [name entry]) ->
  info o' = info o
  /\ map target (writes o') = map target (writes o)
  /\ map data (writes o') = map data (writes o).
Proof.
  intros Hs Hev Ho'. apply push_global_outcome in Ho'. subst o'.
  unfold onChange in Hev. rewrite Hs in Hev.
  destruct (includes supportedExtensions (extname (name entry))); [| discriminate].
  fold (logicalName entry) in Hev.
  destruct (wanted scripts (logicalName entry)) eqn:Hn;
    [| unfold changeGlobal in Hev; rewrite Hn in Hev; discriminate].
  destruct (transformFails h (srcText d [name entry])) eqn:Hf.
  - rewrite (changeGlobal_failed _ _ _ _ _ _ _ Hn Hf) in Hev.
    injection Hev as _ <-. now rewrite (pushGlobal_failed_eq _ _ _ _ _ _ _ Hf).
  - apply transformFails_false in Hf as (text & Hp & Hne).
    destruct (changeGlobal_ok h d scripts now userFilter (name entry)
                (logicalName entry) text Hn Hp Hne) as (sk & t & Hsk & Heq).
    rewrite Heq in Hev. injection Hev as _ <-.
    rewrite (pushGlobal_ok _ _ _ _ _ _ _ _ Hp Hne). cbn [info writes].
    rewrite (filter_skips_agree h d userFilter scripts _ sk Hn Hsk).
    rewrite !List.map_map. now cbn.
Qed.

Lemma watch_global_agrees_with_push_witness :
  info sampleOutcome
  = info {| source := ["foo.ts"];
            info := {| file := "foo.ts"; users := ["bob"]; minLength := 19;
                       error := None |};
            writes := [{| target := ["bob"; "scripts"; "foo.js"];
                          data := "function () { return 1 }";
                          settledAt := 1 |}] |}
  /\ map target (writes sampleOutcome) = [["bob"; "scripts"; "foo.js"]].
Proof.
  destruct (watch_global_agrees_with_push sampleHost sampleDisk [] 0 []
              (aFile "foo.ts") ["alice"; "bob"; "carol"]
              {| source := ["foo.ts"];
                 info := {| file := "foo.ts"; users := ["bob"]; minLength := 19;
                            error := None |};
                 writes := [{| target := ["bob"; "scripts"; "foo.js"];
                               data := "function () { return 1 }";
                               settledAt := 1 |}] |}
              sampleOutcome) as (Hi & Ht & _).
  - reflexivity.
  - reflexivity.
  - in_list.
  - split; [exact Hi | exact Ht].
Defined.

(** ** The variable [users] of [watch] *)

Lemma effectiveUsers_cons d u us : effectiveUsers d (u :: us) = u :: us.
Proof. reflexivity. Qed.

Lemma changeGlobal_users h d scripts now userFilter path n :
  fst (changeGlobal h d scripts now userFilter path n) = userFilter
  \/ fst (changeGlobal h d scripts now userFilter path n)
     = effectiveUsers d userFilter.
Proof.
  unfold changeGlobal. destruct (wanted scripts n); [| now left].
  destruct (scanOverrides h d _) as [sk promisesSkips].
  destruct (transform h (srcText d [path])) as [[e|] minCode]; [now left |].
  destruct (isEmpty minCode); [now left |]. right.
  destruct userFilter as [|u us]; now rewrite deployGlobal_eq.
Qed.

Lemma changePrivate_users h d scripts now userFilter path n parts user :
  fst (changePrivate h d scripts now userFilter path n parts user) = userFilter.
Proof.
  unfold changePrivate.
  destruct (wanted userFilter user && wanted scripts n); [| reflexivity].
  destruct (transform h (srcText d parts)) as [[e|] minCode]; [reflexivity |].
  now destruct (isEmpty minCode).
Qed.

Lemma onChange_users h d scripts now userFilter path :
  fst (onChange h d scripts now userFilter path) = userFilter
  \/ fst (onChange h d scripts now userFilter path) = effectiveUsers d userFilter.
Proof.
  unfold onChange.
  destruct (includes supportedExtensions (extname path)); [| now left].
  destruct (splitBy SLASH path) as [|p1 [|p2 [|p3 ps]]]; try now left.
  - apply changeGlobal_users.
  - left. apply changePrivate_users.
Qed.

(** X7.  With a user filter, [watch] handles every event on its own:
    the variable [users] keeps the filter, so that the outcome of an
    event is that of the handler run with the filter, whatever events
    came before.  (Without one, the change of a global script makes the
    users with a [.key] file the filter of the events that follow.) *)
Theorem watch_keeps_user_filter h userFilter scripts events :
  userFilter <> [] ->
  watch h userFilter scripts events
  = map (fun ev => snd (onChange h (fst (fst ev)) scripts (snd (fst ev))
                          userFilter (snd ev)))
      events.
Proof.
  intros Hne. induction events as [|[[d now] path] events IH]; [reflexivity |].
  cbn [watch map fst snd].
  pose proof (onChange_users h d scripts now userFilter path) as Hu.
  destruct (onChange h d scripts now userFilter path) as [users' out].
  cbn [fst snd] in *. f_equal.
  assert (users' = userFilter) as ->.
  { destruct Hu as [-> | ->]; [reflexivity |].
    destruct userFilter; [contradiction | reflexivity]. }
  exact IH.
Qed.

Lemma watch_keeps_user_filter_witness :
  watch sampleHost ["bob"] [] [(sampleDisk, 0, "foo.ts"); (sampleDisk, 5, "foo.ts")]
  = [snd (onChange sampleHost sampleDisk [] 0 ["bob"] "foo.ts");
     snd (onChange sampleHost sampleDisk [] 5 ["bob"] "foo.ts")].
Proof.
  apply (watch_keeps_user_filter sampleHost ["bob"] []
           [(sampleDisk, 0, "foo.ts"); (sampleDisk, 5, "foo.ts")]).
  discriminate.
Defined.

(** ** What one event of [watch] can do *)

Lemma changePrivate_cases h d scripts now userFilter path n parts user users' o :
  changePrivate h d scripts now userFilter path n parts user = (users', Some o) ->
  users' = userFilter /\ source o = parts
  /\ wanted userFilter user = true /\ wanted scripts n = true
  /\ ((transformFails h (srcText d parts) = true
       /\ error (info o) <> None /\ writes o = [] /\ minLength (info o) = 0)
      \/ (exists text t,
             processScript h (srcText d parts) = Resolved text
             /\ text <> EmptyString
             /\ writes o = [writeFilePersist h t (scriptPath user n) text])).
Proof.
  unfold changePrivate, transformFails, transform.
  destruct (wanted userFilter user) eqn:Hu; [| discriminate].
  destruct (wanted scripts n) eqn:Hn; [| discriminate]. cbn [andb].
  destruct (processScript h (srcText d parts)) as [text | reason].
  - destruct (isEmpty text) eqn:E; intros [= <- <-]; cbn [source info writes];
      (split; [reflexivity |]); (split; [reflexivity |]);
      (split; [reflexivity |]); (split; [reflexivity |]).
    + left. cbn. now repeat split.
    + right. exists text. eexists. apply isEmpty_false in E. now repeat split.
  - intros [= <- <-]. cbn [source info writes]. repeat split. left. cbn.
    now repeat split.
Qed.

Lemma changeGlobal_cases h d scripts now userFilter path n users' o :
  changeGlobal h d scripts now userFilter path n = (users', Some o) ->
  source o = [path] /\ wanted scripts n = true
  /\ ((transformFails h (srcText d [path]) = true /\ users' = userFilter
       /\ error (info o) <> None /\ writes o = [] /\ minLength (info o) = 0)
      \/ (exists text t sk,
             processScript h (srcText d [path]) = Resolved text
             /\ text <> EmptyString
             /\ writes o
                = map (fun u => writeFilePersist h t (scriptPath u n) text)
                    (List.filter (fun u => negb (includes (skipOf sk n) u))
                       (effectiveUsers d userFilter)))).
Proof.
  intros Hev.
  destruct (wanted scripts n) eqn:Hn;
    [| unfold changeGlobal in Hev; rewrite Hn in Hev; discriminate].
  destruct (transformFails h (srcText d [path])) eqn:Hf.
  - rewrite (changeGlobal_failed _ _ _ _ _ _ _ Hn Hf) in Hev.
    injection Hev as <- <-. cbn. repeat split. left. now repeat split.
  - apply transformFails_false in Hf as (text & Hp & Hne).
    destruct (changeGlobal_ok h d scripts now userFilter path n text Hn Hp Hne)
      as (sk & t & _ & Heq).
    rewrite Heq in Hev. injection Hev as _ <-. cbn [source writes].
    repeat split. right. now exists text, t, sk.
Qed.



(** X9.  Whatever the handler of a change writes is the non-empty text
    [processScript] resolved to for the changed file, and goes to the
    deployment path, under the logical name of the file, which passes
    the script filter, of a user that passes the filter [users]. *)
Theorem watch_writes_transformed_text h d scripts now userFilter path users' o w :
  onChange h d scripts now userFilter path = (users', Some o) ->
  In w (writes o) ->
  processScript h (srcText d (source o)) = Resolved (data w)
  /\ data w <> EmptyString
  /\ wanted scripts (basename path (extname path)) = true
  /\ exists user,
       target w = scriptPath user (basename path (extname path))
       /\ wanted userFilter user = true.
Proof.
  unfold onChange.
  destruct (includes supportedExtensions (extname path)); [| discriminate].
  destruct (splitBy SLASH path) as [|p1 [|p2 [|p3 ps]]]; try discriminate.
  - intros Hev Hw. apply changeGlobal_cases in Hev as (Hsrc & Hn & Hc).
    rewrite Hsrc.
    destruct Hc as [(_ & _ & _ & Hnil & _) | (text & t & sk & Hp & Hne & Heq)].
    + rewrite Hnil in Hw. contradiction.
    + rewrite Heq in Hw. apply in_map_iff in Hw as (u & <- & Hu).
      apply filter_In in Hu as [Hu _]. cbn [data target writeFilePersist].
      repeat split; try assumption.
      exists u. split; [reflexivity | now apply (wanted_effective d)].
  - intros Hev Hw.
    apply changePrivate_cases in Hev as (_ & Hsrc & Hu & Hn & Hc).
    rewrite Hsrc.
    destruct Hc as [(_ & _ & Hnil & _) | (text & t & Hp & Hne & Heq)].
    + rewrite Hnil in Hw. contradiction.
    + rewrite Heq in Hw. destruct Hw as [<- | []].
      cbn [data target writeFilePersist]. repeat split; try assumption.
      now exists p1.
Qed.

Lemma watch_writes_transformed_text_witness :
  processScript sampleHost (srcText sampleDisk (source samplePrivateOutcome))
  = Resolved "function () { return 2 }"
  /\ exists user,
       ["alice"; "scripts"; "foo.js"] = scriptPath user (basename "alice/foo.ts" (extname "alice/foo.ts"))
       /\ wanted [] user = true.
Proof.
  destruct (watch_writes_transformed_text sampleHost sampleDisk [] 0 []
              "alice/foo.ts" [] samplePrivateOutcome
              {| target := ["alice"; "scripts"; "foo.js"];
                 data := "function () { return 2 }"; settledAt := 1 |})
    as (Hp & _ & _ & Hu).
  - reflexivity.
  - in_list.
  - split; [exact Hp | exact Hu].
Defined.

(** ** Names with an extension *)

Lemma splitBy_whole (sep : ascii) (s : string) :
  hasChar sep s = false -> splitBy sep s = [s].
Proof.
  induction s as [|c s IH]; intros H; [reflexivity |].
  cbn [hasChar list_ascii_of_string existsb] in H.
  apply orb_false_iff in H as [Hc Hs]. fold (hasChar sep s) in Hs.
  cbn [splitBy]. rewrite Ascii.eqb_sym, Hc. now rewrite (IH Hs).
Qed.

Lemma splitBy_first (sep : ascii) (s rest : string) :
  hasChar sep s = false ->
  splitBy sep (s +:+ String sep rest) = s :: splitBy sep rest.
Proof.
  induction s as [|c s IH]; intros H.
  - change (EmptyString +:+ String sep rest) with (String sep rest).
    cbn [splitBy]. now rewrite Ascii.eqb_refl.
  - cbn [hasChar list_ascii_of_string existsb] in H.
    apply orb_false_iff in H as [Hc Hs]. fold (hasChar sep s) in Hs.
    rewrite append_cons. cbn [splitBy].
    rewrite Ascii.eqb_sym, Hc. now rewrite (IH Hs).
Qed.

Lemma hasChar_append (c : ascii) (s t : string) :
  hasChar c (s +:+ t) = hasChar c s || hasChar c t.
Proof.
  induction s as [|x s IH]; [reflexivity |].
  rewrite append_cons. cbn [hasChar list_ascii_of_string existsb].
  fold (hasChar c (s +:+ t)). fold (hasChar c s). rewrite IH.
  now rewrite orb_assoc.
Qed.

Lemma lastDot_append (s : string) (t : string) (i : nat) :
  lastDot t = Some i -> lastDot (s +:+ t) = Some (String.length s + i).
Proof.
  intros H. induction s as [|c s IH]; [exact H |].
  rewrite append_cons. cbn [lastDot String.length]. now rewrite IH.
Qed.

Lemma substring_prefix (s t : string) :
  String.substring 0 (String.length s) (s +:+ t) = s.
Proof.
  induction s as [|c s IH]; [now destruct t |].
  rewrite append_cons. cbn [String.length String.substring]. now rewrite IH.
Qed.

Lemma substring_suffix (s t : string) :
  String.substring (String.length s) (String.length t) (s +:+ t) = t.
Proof.
  induction s as [|c s IH].
  - cbn [String.length]. change (EmptyString +:+ t) with t.
    induction t as [|x t IHt]; [reflexivity |].
    cbn [String.length String.substring]. now rewrite IHt.
  - rewrite append_cons. cbn [String.length String.substring]. exact IH.
Qed.

Lemma lastPart_whole (s : string) :
  hasChar SLASH s = false -> s <> EmptyString -> lastPart s = s.
Proof.
  intros Hs Hne. unfold lastPart. rewrite (splitBy_whole _ _ Hs).
  cbn [List.filter]. apply isEmpty_false in Hne. now rewrite Hne.
Qed.

(** The file [<n>.js] is a script with logical name [n], for a name
    without dot or slash that is not empty. *)
Lemma js_file_name (n : string) :
  hasChar DOT n = false -> hasChar SLASH n = false -> n <> EmptyString ->
  extname (n +:+ ".js") = ".js" /\ basename (n +:+ ".js") ".js" = n.
Proof.
  intros Hd Hs Hne.
  assert (Hpart : lastPart (n +:+ ".js") = n +:+ ".js").
  { apply lastPart_whole.
    - rewrite hasChar_append, Hs. reflexivity.
    - destruct n; [contradiction | discriminate]. }
  assert (Hlen : String.length (n +:+ ".js") = String.length n + 3)
    by apply append_length.
  assert (Hpos : 0 < String.length n)
    by (destruct n; [contradiction | cbn; lia]).
  split.
  - unfold extname. rewrite Hpart.
    rewrite (lastDot_append n ".js" 0 eq_refl), Nat.add_0_r.
    destruct (String.length n) as [|k] eqn:Ek; [lia |].
    destruct (String.eqb_spec (n +:+ ".js") "..") as [Heq | _].
    + apply (f_equal String.length) in Heq. rewrite Hlen in Heq.
      cbn in Heq. lia.
    + unfold sliceFrom. rewrite Hlen, <- Ek.
      replace (String.length n + 3 - String.length n) with (String.length ".js")
        by (cbn; lia).
      apply substring_suffix.
  - unfold basename. rewrite Hpart. cbn [isEmpty].
    destruct (String.eqb_spec ".js" (n +:+ ".js")) as [Heq | _].
    + apply (f_equal String.length) in Heq. rewrite Hlen in Heq.
      cbn in Heq. lia.
    + unfold endsWith, sliceFrom. rewrite Hlen.
      change (String.length ".js") with 3.
      replace (String.length n + 3 - 3) with (String.length n) by lia.
      replace (String.length n + 3 - String.length n) with (String.length ".js")
        by (cbn; lia).
      rewrite substring_suffix.
      replace (3 <=? String.length n + 3) with true
        by (symmetry; apply Nat.leb_le; lia).
      replace (3 <? String.length n + 3) with true
        by (symmetry; apply Nat.ltb_lt; lia).
      cbn [andb String.eqb Ascii.eqb]. unfold sliceTo. apply substring_prefix.
Qed.

(** ** [pull] *)

Lemma isEmpty_js (n : string) : isEmpty (n +:+ ".js") = false.
Proof. now destruct n. Qed.

Lemma resolvePath_user (user file' : string) :
  user <> EmptyString ->
  resolvePath [user; "scripts"; file' +:+ ".js"] = scriptPath user file'
  /\ resolvePath [user; file' +:+ ".js"] = [user; file' +:+ ".js"].
Proof.
  intros Hne. apply isEmpty_false in Hne. unfold resolvePath, scriptPath.
  cbn [List.filter]. rewrite Hne, isEmpty_js. now split.
Qed.

Lemma pull_user_name (user n : string) :
  user <> EmptyString ->
  hasChar DOT user = false -> hasChar DOT n = false ->
  pull (user +:+ String DOT n)
  = {| copyFrom := scriptPath user n; copyTo := [user; n +:+ ".js"] |}.
Proof.
  intros Hne Hu Hn. unfold pull.
  rewrite (splitBy_first _ _ _ Hu), (splitBy_whole _ _ Hn).
  cbn [nth nth_error printed].
  now destruct (resolvePath_user user n Hne) as [-> ->].
Qed.

(** X10.  [pull] and [push] are inverse on paths: for a user name that
    is not empty and has no dot or slash, and a script name without dot
    or slash that is not empty, [pull "user.name"] copies from the user's
    deployment path of that name to the file [<name>.js] of the user's
    folder in the source tree; when that file is there and passes the
    filters, [push] processes it and, once it is transformed to a
    non-empty text, writes exactly the path [pull] copied from. *)
Theorem pull_then_push_round_trip h d userFilter scripts dir entry n minCode :
  name dir <> EmptyString ->
  hasChar DOT (name dir) = false ->
  hasChar SLASH (name dir) = false ->
  n <> EmptyString ->
  hasChar DOT n = false ->
  hasChar SLASH n = false ->
  In dir (srcRoot d) -> isDirectory dir = true ->
  wanted userFilter (name dir) = true ->
  In entry (srcSub d (name dir)) -> isFile entry = true ->
  name entry = n +:+ ".js" ->
  wanted scripts n = true ->
  processScript h (srcText d [name dir; n +:+ ".js"]) = Resolved minCode ->
  minCode <> EmptyString ->
  copyFrom (pull (name dir +:+ String DOT n)) = scriptPath (name dir) n
  /\ copyTo (pull (name dir +:+ String DOT n)) = [name dir; n +:+ ".js"]
  /\ (exists o,
         In o (outcomesOf (push h d userFilter scripts)
                 (copyTo (pull (name dir +:+ String DOT n)))))
  /\ forall o,
       In o (outcomesOf (push h d userFilter scripts)
               (copyTo (pull (name dir +:+ String DOT n)))) ->
       map target (writes o) = [copyFrom (pull (name dir +:+ String DOT n))]
       /\ map data (writes o) = [minCode].
Proof.
  intros Hune Hu _ Hne Hd Hs Hdir Hisd Hwu Hin Hf Hname Hws Hp Hm.
  rewrite (pull_user_name (name dir) n Hune Hu Hd). cbn [copyTo copyFrom].
  destruct (js_file_name n Hd Hs Hne) as [Hext Hbase].
  assert (Hl : logicalName entry = n).
  { unfold logicalName. now rewrite Hname, Hext, Hbase. }
  split; [reflexivity |]. split; [reflexivity |]. split.
  - exists (pushPrivate h d
              (listedAt h + latency h (ReadDir SrcDir [name dir]))
              (name dir) entry (logicalName entry)).
    rewrite <- Hname.
    apply push_private_present; [exact Hdir | | exact Hin |].
    + unfold wantedFolder. now rewrite Hisd, Hwu.
    + unfold wantedScript, isScript. rewrite Hf, Hl, Hws, Hname, Hext.
      reflexivity.
  - intros o Ho. rewrite <- Hname in Ho, Hp.
    apply (push_private_outcome h d userFilter scripts (name dir) entry) in Ho.
    subst o.
    rewrite (pushPrivate_ok _ _ _ _ entry _ _ Hp Hm).
    cbn [writes map target data writeFilePersist]. now rewrite Hl.
Qed.

Lemma pull_then_push_round_trip_witness :
  copyFrom (pull ("carol" +:+ String DOT "foo")) = ["carol"; "scripts"; "foo.js"]
  /\ copyTo (pull ("carol" +:+ String DOT "foo")) = ["carol"; "foo.js"]
  /\ (exists o,
         In o (outcomesOf (push (withPipeline sampleHost Resolved) sampleDisk [] [])
                 (copyTo (pull ("carol" +:+ String DOT "foo")))))
  /\ forall o,
       In o (outcomesOf (push (withPipeline sampleHost Resolved) sampleDisk [] [])
               (copyTo (pull ("carol" +:+ String DOT "foo")))) ->
       map target (writes o) = [copyFrom (pull ("carol" +:+ String DOT "foo"))]
       /\ map data (writes o) = ["function ( {"].
Proof.
  apply (pull_then_push_round_trip (withPipeline sampleHost Resolved) sampleDisk
           [] [] (aFolder "carol") (aFile "foo.js") "foo" "function ( {").
  - discriminate.
  - reflexivity.
  - reflexivity.
  - discriminate.
  - reflexivity.
  - reflexivity.
  - in_list.
  - reflexivity.
  - reflexivity.
  - in_list.
  - reflexivity.
  - reflexivity.
  - reflexivity.
  - reflexivity.
  - discriminate.
Defined.



(** ** [test] *)

Lemma test_inner h d owner entries errors :
  fold_left
    (fun errors entry =>
       if isFile entry && includes supportedExtensions (extname (name entry))
       then testScript h d [owner; name entry] (owner +:+ "/" +:+ name entry)
              errors
       else errors)
    entries errors
  = errors
    ++ flat_map (fun entry =>
                   if isScript entry
                   then rejection h d [owner; name entry]
                          (owner +:+ "/" +:+ name entry)
                   else [])
         entries.
Proof.
  revert errors. induction entries as [|e entries IH]; intros errors;
    cbn [fold_left flat_map].
  - now rewrite app_nil_r.
  - rewrite IH. fold (isScript e). destruct (isScript e); [| reflexivity].
    unfold testScript, rejection.
    destruct (processScript h (srcText d [owner; name e]));
      [reflexivity | now rewrite <- app_assoc].
Qed.

Lemma test_closed h d :
  test h d
  = flat_map
      (fun dirent =>
         if isDirectory dirent
         then flat_map (fun entry =>
                          if isScript entry
                          then rejection h d [name dirent; name entry]
                                 (name dirent +:+ "/" +:+ name entry)
                          else [])
                (srcSub d (name dirent))
         else if isScript dirent
              then rejection h d [name dirent] (name dirent)
              else [])
      (srcRoot d).
Proof.
  unfold test. generalize (srcRoot d) as dirs.
  assert (H : forall dirs errors,
             fold_left
               (fun errors dirent =>
                  if isDirectory dirent then
                    fold_left
                      (fun errors entry =>
                         if isFile entry
                            && includes supportedExtensions (extname (name entry))
                         then testScript h d [name dirent; name entry]
                                (name dirent +:+ "/" +:+ name entry) errors
                         else errors)
                      (srcSub d (name dirent)) errors
                  else if isFile dirent
                          && includes supportedExtensions (extname (name dirent))
                  then testScript h d [name dirent] (name dirent) errors
                  else errors)
               dirs errors
             = errors
               ++ flat_map
                    (fun dirent =>
                       if isDirectory dirent
                       then flat_map (fun entry =>
                                        if isScript entry
                                        then rejection h d [name dirent; name entry]
                                               (name dirent +:+ "/" +:+ name entry)
                                        else [])
                              (srcSub d (name dirent))
                       else if isScript dirent
                            then rejection h d [name dirent] (name dirent)
                            else [])
                    dirs).
  { induction dirs as [|dir dirs IH]; intros errors; cbn [fold_left flat_map].
    - now rewrite app_nil_r.
    - rewrite IH. destruct (isDirectory dir).
      + rewrite test_inner. now rewrite <- app_assoc.
      + fold (isScript dir). destruct (isScript dir); [| reflexivity].
        unfold testScript, rejection.
        destruct (processScript h (srcText d [name dir]));
          [reflexivity | now rewrite <- app_assoc]. }
  intros dirs. apply (H dirs []).
Qed.

Lemma in_rejection h d src f x :
  In x (rejection h d src f) <->
  exists reason, processScript h (srcText d src) = Rejected reason
                 /\ x = (f, Reason reason).
Proof.
  unfold rejection. destruct (processScript h (srcText d src)) as [text | r].
  - split; [contradiction | intros (reason & H & _); discriminate].
  - split.
    + intros [<- | []]. now exists r.
    + intros (reason & [= ->] & ->). now left.
Qed.

Lemma isScript_not_directory (e : Dirent) :
  isScript e = true -> isDirectory e = false.
Proof.
  unfold isScript, isFile, isDirectory. now destruct (kind e).
Qed.

Lemma pushPrivate_rejected h d now user e n reason :
  error (info (pushPrivate h d now user e n)) = Some (Reason reason)
  <-> processScript h (srcText d [user; name e]) = Rejected reason.
Proof.
  unfold pushPrivate, transform.
  destruct (processScript h (srcText d [user; name e])) as [text | r].
  - destruct (isEmpty text); cbn; split; discriminate.
  - cbn. split; intros [= ->]; reflexivity.
Qed.

Lemma pushGlobal_rejected h d sk us now e n reason :
  error (info (fst (pushGlobal h d sk us now e n))) = Some (Reason reason)
  <-> processScript h (srcText d [name e]) = Rejected reason.
Proof.
  unfold pushGlobal, transform.
  destruct (processScript h (srcText d [name e])) as [text | r].
  - destruct (isEmpty text); [cbn; split; discriminate |].
    rewrite deployGlobal_eq. cbn. split; discriminate.
  - cbn. split; intros [= ->]; reflexivity.
Qed.

Lemma pushPrivate_file h d now user e n :
  file (info (pushPrivate h d now user e n)) = user +:+ "/" +:+ name e.
Proof.
  unfold pushPrivate. destruct (transform h _) as [[f|] minCode];
    [reflexivity |]. now destruct (isEmpty minCode).
Qed.

Lemma pushGlobal_file h d sk us now e n :
  file (info (fst (pushGlobal h d sk us now e n))) = name e.
Proof.
  unfold pushGlobal. destruct (transform h _) as [[f|] minCode];
    [reflexivity |]. destruct (isEmpty minCode); [reflexivity |].
  now rewrite deployGlobal_eq.
Qed.

(** X12.  [test] reports exactly the rejections that a [push] without
    filters records: a file is listed with a reason if and only if that
    push has an [Info] for the file whose error is that reason.  A
    script that transforms to the empty text, an error for [push], is
    not reported by [test]. *)
Theorem test_reports_rejections_of_push h d f e :
  In (f, e) (test h d)
  <-> exists reason o,
        e = Reason reason
        /\ In o (outcomes (push h d [] []))
        /\ file (info o) = f
        /\ error (info o) = Some (Reason reason).
Proof.
  rewrite test_closed, in_flat_map. split.
  - intros (dir & Hdir & Hin). destruct (isDirectory dir) eqn:Hk.
    + apply in_flat_map in Hin as (entry & He & Hin).
      destruct (isScript entry) eqn:Hs; [| contradiction].
      apply in_rejection in Hin as (reason & Hp & [= -> ->]).
      exists reason,
        (pushPrivate h d (scannedAt h (listedAt h) dir) (name dir) entry
           (logicalName entry)).
      split; [reflexivity |]. split.
      * rewrite push_outcomes. apply in_app_iff. left.
        apply in_privateAmong. exists dir, entry.
        rewrite wantedFolder_nil, wantedScript_nil. now repeat split.
      * split; [apply pushPrivate_file | now apply pushPrivate_rejected].
    + destruct (isScript dir) eqn:Hs; [| contradiction].
      apply in_rejection in Hin as (reason & Hp & [= -> ->]).
      exists reason,
        (fst (pushGlobal h d (finalSkips h d [] []) (effectiveUsers d [])
                (scannedAllAt h d [] []) dir (logicalName dir))).
      split; [reflexivity |]. split.
      * rewrite push_outcomes. apply in_app_iff. right.
        apply in_globalOf. exists dir. rewrite wantedScript_nil.
        now repeat split.
      * split; [apply pushGlobal_file | now apply pushGlobal_rejected].
  - intros (reason & o & -> & Hin & <- & He).
    apply push_outcome_cases in Hin
      as [(dir & entry & Hdir & Hw & Hentry & Hs & ->) | (entry & Hentry & Hs & ->)].
    + rewrite wantedFolder_nil in Hw. rewrite wantedScript_nil in Hs.
      exists dir. split; [exact Hdir |]. rewrite Hw.
      apply in_flat_map. exists entry. split; [exact Hentry |]. rewrite Hs.
      apply in_rejection. exists reason.
      split; [now apply pushPrivate_rejected in He |].
      now rewrite pushPrivate_file.
    + rewrite wantedScript_nil in Hs.
      exists entry. split; [exact Hentry |].
      rewrite (isScript_not_directory _ Hs), Hs.
      apply in_rejection. exists reason.
      split; [now apply pushGlobal_rejected in He |].
      now rewrite pushGlobal_file.
Qed.

(** ** The best record of a name *)

Lemma fold_consider_snoc (l : list (string * string * Time))
    (r : string * string * Time) (m : list (string * MacroEntry)) :
  fold_left consider (l ++ [r]) m = consider (fold_left consider l m) r.
Proof. now rewrite fold_left_app. Qed.

Lemma best_of_candidates (l : list (string * string * Time)) (n : string) :
  match mapGet (fold_left consider l []) n with
  | Some e =>
      exists l1 l2,
        l = l1 ++ (n, macro e, date e) :: l2
        /\ (forall b t, In (n, b, t) l1 -> t < date e)
        /\ (forall b t, In (n, b, t) l2 -> t <= date e)
  | None => forall b t, ~ In (n, b, t) l
  end.
Proof.
  induction l as [|[[n' b'] t'] l IH] using rev_ind.
  - cbn. intros b t [].
  - rewrite fold_consider_snoc. unfold consider at 1. cbn [fst snd].
    rewrite considerMacro_get.
    destruct (String.eqb_spec n' n) as [-> | Hne].
    + remember (mapGet (fold_left consider l []) n) as got eqn:Egot.
      clear Egot. destruct got as [cur|]; cbv beta iota in IH |- *.
      * destruct IH as (l1 & l2 & -> & H1 & H2).
        destruct (date cur <? t') eqn:E.
        -- apply Nat.ltb_lt in E. cbn [macro date].
           exists (l1 ++ (n, macro cur, date cur) :: l2), [].
           split; [reflexivity |]. split; [| intros b t []].
           intros b t Hin. apply in_app_iff in Hin as [Hin | [[= _ <-] | Hin]].
           ++ specialize (H1 b t Hin). lia.
           ++ exact E.
           ++ specialize (H2 b t Hin). lia.
        -- apply Nat.ltb_ge in E.
           exists l1, (l2 ++ [(n, b', t')]).
           split; [now rewrite <- app_assoc |]. split; [exact H1 |].
           intros b t Hin. apply in_app_iff in Hin as [Hin | [[= _ <-] | []]].
           ++ now apply (H2 b).
           ++ exact E.
      * cbn [macro date]. exists l, []. split; [reflexivity |].
        split; [| intros b t []].
        intros b t Hin. now apply IH in Hin.
    + remember (mapGet (fold_left consider l []) n) as got eqn:Egot.
      clear Egot. destruct got as [cur|]; cbv beta iota in IH |- *.
      * destruct IH as (l1 & l2 & -> & H1 & H2).
        exists l1, (l2 ++ [(n', b', t')]).
        split; [now rewrite <- app_assoc |]. split; [exact H1 |].
        intros b t Hin. apply in_app_iff in Hin as [Hin | [[= E _ _] | []]].
        -- now apply (H2 b).
        -- contradiction.
      * intros b t Hin. apply in_app_iff in Hin as [Hin | [[= E _ _] | []]].
        -- now apply IH in Hin.
        -- contradiction.
Qed.

(** X13.  After the scan, the map [macros] holds for a name the
    candidate record of that name with the greatest modification time,
    the first scanned among those of that time; it holds nothing for a
    name without candidate. *)
Theorem best_by_name_is_latest d n :
  match mapGet (fst (scanMacros d)) n with
  | Some e =>
      exists before after,
        candidates d = before ++ (n, macro e, date e) :: after
        /\ (forall b t, In (n, b, t) before -> t < date e)
        /\ (forall b t, In (n, b, t) after -> t <= date e)
  | None => forall b t, ~ In (n, b, t) (candidates d)
  end.
Proof. rewrite scanMacros_closed. apply best_of_candidates. Qed.

(** ** The order of the merged text *)

Lemma ltb_lts (a b : string) :
  String.ltb a b = true <-> OrderedTypeEx.String_as_OT.lt a b.
Proof.
  rewrite <- OrderedTypeEx.String_as_OT.cmp_lt.
  unfold String.ltb, OrderedTypeEx.String_as_OT.cmp.
  destruct (String.compare a b); split; congruence.
Qed.

Lemma ltb_trans (a b c : string) :
  String.ltb a b = true -> String.ltb b c = true -> String.ltb a c = true.
Proof.
  rewrite !ltb_lts. apply OrderedTypeEx.String_as_OT.lt_trans.
Qed.

Lemma leb_cases (a b : string) :
  String.leb a b = true <-> String.ltb a b = true \/ a = b.
Proof.
  unfold String.leb, String.ltb.
  destruct (String.compare a b) eqn:E.
  - apply String.compare_eq_iff in E. subst. split; [now right | reflexivity].
  - split; [now left | reflexivity].
  - split; [discriminate |]. intros [H | ->]; [discriminate |].
    pose proof (String.compare_antisym b b) as H. rewrite E in H.
    discriminate.
Qed.

Lemma leb_false (a b : string) :
  String.leb a b = false -> String.ltb b a = true.
Proof.
  intros H. destruct (String.leb_total a b) as [H' | H']; [congruence |].
  apply leb_cases in H' as [H' | ->]; [exact H' |].
  assert (String.leb a a = true) by (apply leb_cases; now right). congruence.
Qed.

Lemma mapGet_None {V : Type} (m : list (string * V)) (k : string) :
  mapGet m k = None <-> ~ In k (map fst m).
Proof.
  induction m as [|[k0 v0] m IH]; cbn [mapGet map fst In].
  - tauto.
  - destruct (String.eqb_spec k0 k) as [-> | Hne].
    + split; [discriminate | intros H; contradiction H; now left].
    + rewrite IH. tauto.
Qed.

Lemma mapSet_keys {V : Type} (m : list (string * V)) (k : string) (v : V) :
  map fst (mapSet m k v)
  = match mapGet m k with Some _ => map fst m | None => map fst m ++ [k] end.
Proof.
  induction m as [|[k0 v0] m IH]; cbn [mapSet mapGet map fst]; [reflexivity |].
  destruct (String.eqb k0 k); cbn [map fst]; [reflexivity |].
  rewrite IH. now destruct (mapGet m k).
Qed.

Lemma considerMacro_keys macros n b t :
  List.NoDup (map fst macros) ->
  List.NoDup (map fst (considerMacro macros n b t)).
Proof.
  intros Hnd. unfold considerMacro.
  destruct (mapGet macros n) as [cur|] eqn:E.
  - destruct (date cur <? t); [| exact Hnd]. now rewrite mapSet_keys, E.
  - rewrite mapSet_keys, E.
    apply (Permutation_NoDup (Permutation_cons_append (map fst macros) n)).
    constructor; [now apply mapGet_None | exact Hnd].
Qed.

Lemma fold_consider_keys (l : list (string * string * Time)) macros :
  List.NoDup (map fst macros) ->
  List.NoDup (map fst (fold_left consider l macros)).
Proof.
  revert macros. induction l as [|r l IH]; intros macros H; [exact H |].
  cbn [fold_left]. apply IH. now apply considerMacro_keys.
Qed.

Lemma insertByName_perm {V : Type} (e : string * V) (l : list (string * V)) :
  Permutation (insertByName e l) (e :: l).
Proof.
  induction l as [|x l IH]; cbn [insertByName]; [reflexivity |].
  destruct (String.leb (fst e) (fst x)); [reflexivity |].
  rewrite IH. apply perm_swap.
Qed.

Lemma sortByName_perm {V : Type} (l : list (string * V)) :
  Permutation (sortByName l) l.
Proof.
  induction l as [|x l IH]; [reflexivity |].
  cbn [sortByName fold_right]. rewrite insertByName_perm.
  now apply perm_skip.
Qed.

Lemma insertByName_sorted {V : Type} (e : string * V) (l : list (string * V)) :
  ~ In (fst e) (map fst l) ->
  StronglySorted (fun a b => String.ltb (fst a) (fst b) = true) l ->
  StronglySorted (fun a b => String.ltb (fst a) (fst b) = true)
    (insertByName e l).
Proof.
  intros Hfresh Hs. induction Hs as [|x l Hs IH Hall]; cbn [insertByName].
  - repeat constructor.
  - destruct (String.leb (fst e) (fst x)) eqn:E.
    + apply leb_cases in E as [E | E].
      * constructor; [now constructor |]. constructor; [exact E |].
        eapply List.Forall_impl; [| exact Hall].
        intros y Hy. now apply (ltb_trans _ (fst x)).
      * contradiction Hfresh. left. now symmetry.
    + apply leb_false in E. constructor.
      * apply IH. intros Hin. apply Hfresh. now right.
      * rewrite (insertByName_perm e l). now constructor.
Qed.

Lemma sortByName_sorted {V : Type} (l : list (string * V)) :
  List.NoDup (map fst l) ->
  StronglySorted (fun a b => String.ltb (fst a) (fst b) = true) (sortByName l).
Proof.
  induction l as [|x l IH]; intros Hnd; [constructor |].
  cbn [map] in Hnd. apply List.NoDup_cons_iff in Hnd as [Hx Hnd].
  cbn [sortByName fold_right]. apply insertByName_sorted; [| now apply IH].
  fold (sortByName l). intros Hin. apply Hx.
  eapply Permutation_in; [| exact Hin].
  apply Permutation_map, sortByName_perm.
Qed.

Lemma filter_sorted {A : Type} (R : A -> A -> Prop) (keep : A -> bool)
    (l : list A) :
  StronglySorted R l -> StronglySorted R (List.filter keep l).
Proof.
  induction 1 as [|x l Hs IH Hall]; cbn [List.filter]; [constructor |].
  destruct (keep x); [| exact IH]. constructor; [exact IH |].
  apply List.Forall_forall. intros y Hy. apply filter_In in Hy as [Hy _].
  rewrite List.Forall_forall in Hall. now apply Hall.
Qed.

(** X14.  The merged text lists the records it keeps in strictly
    increasing order of their names, in code units: every name once,
    whatever the order in which the files were scanned. *)
Theorem merged_names_strictly_increase d :
  StronglySorted nameBefore (keptMacros (sortByName (fst (scanMacros d))))
  /\ forall r, syncMacros d = Some r ->
       macroFile r = macroBlocks (keptMacros (sortByName (fst (scanMacros d))))
       /\ macrosSynced r = length (keptMacros (sortByName (fst (scanMacros d)))).
Proof.
  split.
  - apply filter_sorted, sortByName_sorted.
    rewrite scanMacros_closed. apply fold_consider_keys. constructor.
  - intros r Hr. rewrite syncMacros_closed in Hr. cbv zeta in Hr.
    rewrite scanMacros_closed. cbn [fst].
    destruct (existsb _ _); [discriminate |]. now injection Hr as <-.
Qed.

(** ** Reading the merged text back *)

Lemma splitBy_no_sep (sep : ascii) (s x : string) :
  In x (splitBy sep s) -> hasChar sep x = false.
Proof.
  revert x. induction s as [|c s IH]; intros x; cbn [splitBy].
  - intros [<- | []]. reflexivity.
  - destruct (Ascii.eqb_spec c sep) as [-> | Hne].
    + intros [<- | H]; [reflexivity | now apply IH].
    + destruct (splitBy sep s) as [|l ls] eqn:E.
      * intros [<- | []]. cbn [hasChar list_ascii_of_string existsb].
        apply orb_false_iff. split; [| reflexivity].
        apply Ascii.eqb_neq. congruence.
      * intros [<- | H]; [| apply IH; now right].
        cbn [hasChar list_ascii_of_string existsb]. apply orb_false_iff.
        split; [apply Ascii.eqb_neq; congruence |].
        apply IH. now left.
Qed.

Lemma in_pairUp (lines : list string) (p : string * string) :
  In p (pairUp lines) -> In (fst p) lines /\ In (snd p) lines.
Proof.
  assert (H : forall k lines, length lines <= k ->
                In p (pairUp lines) -> In (fst p) lines /\ In (snd p) lines).
  { induction k as [|k IH]; intros [|a [|b rest]] Hlen; cbn [pairUp In length] in *;
      try contradiction; try lia.
    intros [<- | Hin]; cbn [fst snd]; [tauto |].
    destruct (IH rest) as [H1 H2]; [lia | exact Hin | tauto]. }
  apply (H (length lines)). lia.
Qed.

Lemma in_firstn {A : Type} (k : nat) (l : list A) (x : A) :
  In x (firstn k l) -> In x l.
Proof.
  revert l. induction k as [|k IH]; intros [|y l]; cbn [firstn In];
    try contradiction.
  intros [-> | H]; [now left | right; now apply IH].
Qed.

Lemma candidates_no_newline d n b t :
  In (n, b, t) (candidates d) -> hasNewline n = false /\ hasNewline b = false.
Proof.
  unfold candidates. rewrite in_flat_map. intros (entry & _ & Hin).
  destruct (isMacroFile entry); [| contradiction].
  apply in_map_iff in Hin as ([n0 b0] & [= -> -> _] & Hin).
  unfold fileRecords in Hin. apply in_firstn, in_pairUp in Hin as [H1 H2].
  split; [apply (splitBy_no_sep _ _ _ H1) | apply (splitBy_no_sep _ _ _ H2)].
Qed.

Lemma in_mapSet {V : Type} (m : list (string * V)) (k : string) (v : V)
    (x : string * V) :
  In x (mapSet m k v) -> In x m \/ x = (k, v).
Proof.
  induction m as [|[k0 v0] m IH]; cbn [mapSet In].
  - intros [<- | []]. now right.
  - destruct (String.eqb_spec k0 k) as [-> | Hne]; cbn [In].
    + intros [<- | H]; [now right | left; now right].
    + intros [<- | H]; [left; now left |].
      destruct (IH H) as [H' | H']; [left; now right | now right].
Qed.

Lemma in_fold_consider (l : list (string * string * Time)) macros x :
  In x (fold_left consider l macros) ->
  In x macros \/ In (fst x, macro (snd x), date (snd x)) l.
Proof.
  revert macros. induction l as [|[[n b] t] l IH]; intros macros;
    cbn [fold_left]; [now left |].
  intros H. apply IH in H as [H | H]; [| right; now right].
  unfold consider, considerMacro in H. cbn [fst snd] in H.
  destruct (mapGet macros n) as [cur|].
  - destruct (date cur <? t); [| now left].
    apply in_mapSet in H as [H | ->]; [now left | right; now left].
  - apply in_mapSet in H as [H | ->]; [now left | right; now left].
Qed.

Lemma kept_no_newline d :
  noNewline (map (fun e => (fst e, macro (snd e)))
               (keptMacros (sortByName (fst (scanMacros d))))) = true.
Proof.
  unfold noNewline. apply forallb_forall. intros p Hp.
  apply in_map_iff in Hp as (e & <- & He). cbn [fst snd].
  unfold keptMacros in He. apply filter_In in He as [He _].
  apply (Permutation_in _ (sortByName_perm _)) in He.
  rewrite scanMacros_closed in He. cbn [fst] in He.
  apply in_fold_consider in He as [[] | He].
  apply candidates_no_newline in He as [-> ->]. reflexivity.
Qed.

(** X15.  The merged text that [syncMacros] writes reads back, with the
    loop that reads macro files, as exactly the records it was made of,
    in the same order: none is lost, the last included. *)
Theorem merged_text_reads_back d r :
  syncMacros d = Some r ->
  fileRecords (macroFile r)
  = map (fun e => (fst e, macro (snd e)))
      (keptMacros (sortByName (fst (scanMacros d))))
  /\ forall t macros,
       readMacroFile (macroFile r) t macros
       = fold_left (fun m e => considerMacro m (fst e) (macro (snd e)) t)
           (keptMacros (sortByName (fst (scanMacros d)))) macros.
Proof.
  intros Hr. rewrite syncMacros_closed in Hr. cbv zeta in Hr.
  destruct (existsb _ _); [discriminate |]. injection Hr as <-.
  cbn [macroFile]. unfold macroBlocks.
  replace (fold_left consider (candidates d) []) with (fst (scanMacros d))
    by now rewrite scanMacros_closed.
  split.
  - apply fileRecords_macroText, kept_no_newline.
  - intros t macros. rewrite readMacroFile_closed.
    rewrite (fileRecords_macroText _ (kept_no_newline d)).
    now rewrite fold_left_mapped.
Qed.

Lemma merged_text_reads_back_witness :
  fileRecords (macroText [("Beta", "z"); ("gamma", "w")])
  = map (fun e => (fst e, macro (snd e)))
      (keptMacros
         (sortByName
            (fst (scanMacros
                    (macroDisk (macroText [("Beta", "z"); ("gamma", "w")])))))).
Proof.
  apply (merged_text_reads_back
           (macroDisk (macroText [("Beta", "z"); ("gamma", "w")]))
           {| macroFile := macroText [("Beta", "z"); ("gamma", "w")];
              written := [(["alice.macros"],
                           macroText [("Beta", "z"); ("gamma", "w")])];
              macrosSynced := 2; usersSynced := 1 |}).
  reflexivity.
Defined.

(** ** The scriptor calls through [processScript] *)

Lemma span_spec (class : ascii -> bool) (s run rest : string) :
  span class s = (run, rest) ->
  s = run +:+ rest /\ allChars class run = true
  /\ match rest with
     | EmptyString => True
     | String c _ => class c = false
     end.
Proof.
  revert run rest. induction s as [|c s IH]; intros run rest; cbn [span].
  - intros [= <- <-]. now repeat split.
  - destruct (class c) eqn:E.
    + destruct (span class s) as [run' rest']. intros [= <- <-].
      destruct (IH run' rest' eq_refl) as (-> & Hall & Hrest).
      rewrite append_cons. repeat split; [| exact Hrest].
      unfold allChars. cbn [list_ascii_of_string forallb]. rewrite E. exact Hall.
    + intros [= <- <-]. now repeat split.
Qed.

Lemma span_append (class : ascii -> bool) (run rest : string) :
  allChars class run = true ->
  match rest with
  | EmptyString => True
  | String c _ => class c = false
  end ->
  span class (run +:+ rest) = (run, rest).
Proof.
  intros Hall Hrest. induction run as [|c run IH].
  - change (EmptyString +:+ rest) with rest.
    destruct rest as [|c rest]; [reflexivity |]. cbn [span]. now rewrite Hrest.
  - unfold allChars in Hall. cbn [list_ascii_of_string forallb] in Hall.
    apply andb_true_iff in Hall as [Hc Hall].
    rewrite append_cons. cbn [span]. rewrite Hc. now rewrite (IH Hall).
Qed.

Lemma mapChars_length (f : ascii -> ascii) (s : string) :
  String.length (mapChars f s) = String.length s.
Proof. induction s as [|c s IH]; [reflexivity |]. cbn. now rewrite IH. Qed.

Lemma hideMatch_Some (s repl rest : string) :
  hideMatch s = Some (repl, rest) ->
  exists c run,
    s = String c (run +:+ String LPAREN rest)
    /\ (c = HASH \/ c = DOLLAR)
    /\ run <> EmptyString
    /\ allChars (fun x => isWord x || Ascii.eqb x DOT) run = true
    /\ repl
       = String DOLLAR
           (mapChars (fun x => if Ascii.eqb x DOT then DOLLAR else x) run
            +:+ String LPAREN EmptyString).
Proof.
  destruct s as [|c s]; [discriminate |]. cbn [hideMatch].
  destruct (Ascii.eqb c HASH || Ascii.eqb c DOLLAR) eqn:Ec; [| discriminate].
  destruct (span (fun x => isWord x || Ascii.eqb x DOT) s) as [run rest'] eqn:Es.
  destruct run as [|r run]; [discriminate |].
  destruct rest' as [|p rest']; [discriminate |].
  destruct (Ascii.eqb_spec p LPAREN) as [-> | _]; [| discriminate].
  intros [= <- <-]. apply span_spec in Es as (-> & Hall & _).
  exists c, (String r run). repeat split; try assumption; [| discriminate].
  apply orb_true_iff in Ec as [Ec | Ec]; apply Ascii.eqb_eq in Ec; tauto.
Qed.

Lemma hasChar_cons (c x : ascii) (s : string) :
  hasChar c (String x s) = Ascii.eqb c x || hasChar c s.
Proof. reflexivity. Qed.

Lemma unmap_run (run : string) :
  allChars (fun x => isWord x || Ascii.eqb x DOT) run = true ->
  allChars (fun x => isWord x || Ascii.eqb x DOLLAR)
    (mapChars (fun x => if Ascii.eqb x DOT then DOLLAR else x) run) = true
  /\ mapChars (fun x => if Ascii.eqb x DOLLAR then DOT else x)
       (mapChars (fun x => if Ascii.eqb x DOT then DOLLAR else x) run)
     = run.
Proof.
  unfold allChars. induction run as [|c run IH]; [now split |].
  cbn [list_ascii_of_string forallb mapChars]. intros H.
  apply andb_true_iff in H as [Hc H]. destruct (IH H) as [IH1 IH2].
  rewrite IH1, IH2. destruct (Ascii.eqb_spec c DOT) as [-> | Hne].
  - split; reflexivity.
  - rewrite orb_false_r in Hc. rewrite Hc. split; [reflexivity |].
    destruct (Ascii.eqb_spec c DOLLAR) as [-> | _]; [discriminate | reflexivity].
Qed.

Lemma showMatch_hidden (run rest : string) :
  run <> EmptyString ->
  allChars (fun x => isWord x || Ascii.eqb x DOT) run = true ->
  showMatch
    (String DOLLAR
       (mapChars (fun x => if Ascii.eqb x DOT then DOLLAR else x) run
        +:+ String LPAREN EmptyString) +:+ rest)
  = Some (String HASH (run +:+ String LPAREN EmptyString), rest).
Proof.
  intros Hne Hall. destruct (unmap_run run Hall) as [Hall' Hback].
  rewrite append_cons, append_assoc, append_cons.
  change (EmptyString +:+ rest) with rest.
  cbn [showMatch]. rewrite Ascii.eqb_refl.
  rewrite (span_append _ _ (String LPAREN rest) Hall' eq_refl).
  destruct run as [|r run]; [contradiction |].
  cbn [mapChars] in *. rewrite Ascii.eqb_refl. now rewrite Hback.
Qed.

Lemma showMatch_other (c : ascii) (s : string) :
  c <> DOLLAR -> showMatch (String c s) = None.
Proof.
  intros H. cbn [showMatch]. apply Ascii.eqb_neq in H. now rewrite H.
Qed.

Lemma hide_then_show (fuel : nat) :
  forall fuel' s,
    String.length s <= fuel -> String.length s <= fuel' ->
    hasChar DOLLAR s = false ->
    String.length (replaceAll hideMatch fuel s) = String.length s
    /\ replaceAll showMatch fuel' (replaceAll hideMatch fuel s) = s.
Proof.
  induction fuel as [|fuel IH]; intros fuel' s Hf Hf' Hd.
  - destruct s; [| cbn in Hf; lia]. split; [reflexivity |].
    now destruct fuel'.
  - cbn [replaceAll]. destruct (hideMatch s) as [[repl rest]|] eqn:Em.
    + apply hideMatch_Some in Em as (c & run & -> & Hc & Hne & Hall & ->).
      rewrite hasChar_cons, hasChar_append, hasChar_cons in Hd.
      apply orb_false_iff in Hd as [Hcd Hd].
      apply orb_false_iff in Hd as [Hrun Hd].
      apply orb_false_iff in Hd as [_ Hrest].
      assert (c = HASH) as ->.
      { destruct Hc as [-> | ->]; [reflexivity | discriminate]. }
      cbn [String.length] in Hf, Hf'.
      rewrite append_length in Hf, Hf'. cbn [String.length] in Hf, Hf'.
      destruct fuel' as [|fuel']; [lia |].
      destruct (IH fuel' rest) as [IHl IHs]; [lia | lia | exact Hrest |].
      split.
      * rewrite append_cons. cbn [String.length].
        rewrite !append_length, mapChars_length, IHl. cbn [String.length]. lia.
      * cbn [replaceAll]. rewrite (showMatch_hidden run _ Hne Hall), IHs.
        rewrite append_cons, append_assoc, append_cons. reflexivity.
    + destruct s as [|c s]; [split; [reflexivity | now destruct fuel'] |].
      rewrite hasChar_cons in Hd. apply orb_false_iff in Hd as [Hc Hd].
      cbn [String.length] in Hf, Hf'.
      destruct fuel' as [|fuel']; [lia |].
      destruct (IH fuel' s) as [IHl IHs]; [lia | lia | exact Hd |].
      split; [cbn [String.length]; now rewrite IHl |].
      cbn [replaceAll]. rewrite showMatch_other, IHs; [reflexivity |].
      intros ->. now rewrite Ascii.eqb_refl in Hc.
Qed.


(** ** Texts that start with a known header *)






Lemma hideMatch_plain (c : ascii) (t : string) :
  negb (Ascii.eqb c HASH) && negb (Ascii.eqb c DOLLAR) = true ->
  hideMatch (String c t) = None.
Proof.
  intros H. apply andb_true_iff in H as [H1 H2].
  apply negb_true_iff in H1, H2. cbn [hideMatch]. now rewrite H1, H2.
Qed.








(** The fuel of [replaceAll] does not matter once it covers the text,
    for a match that takes at least one character. *)
Lemma replaceAll_fuel (matchAt : string -> option (string * string)) :
  (forall s repl rest,
      matchAt s = Some (repl, rest) -> String.length rest < String.length s) ->
  forall fuel fuel' s,
    String.length s <= fuel -> String.length s <= fuel' ->
    replaceAll matchAt fuel s = replaceAll matchAt fuel' s.
Proof.
  intros Hm.
  assert (Hempty : forall fuel, replaceAll matchAt fuel EmptyString = EmptyString).
  { intros [|fuel]; cbn [replaceAll]; [reflexivity |].
    destruct (matchAt EmptyString) as [[repl rest] |] eqn:E; [| reflexivity].
    apply Hm in E. cbn in E. lia. }
  induction fuel as [|fuel IH]; intros fuel' s Hf Hf'.
  - destruct s; [| cbn in Hf; lia]. now rewrite !Hempty.
  - destruct fuel' as [|fuel'].
    + destruct s; [| cbn in Hf'; lia]. now rewrite !Hempty.
    + cbn [replaceAll]. destruct (matchAt s) as [[repl rest] |] eqn:E.
      * apply Hm in E. f_equal. apply IH; lia.
      * destruct s as [|c s]; [reflexivity |]. f_equal.
        cbn [String.length] in Hf, Hf'. apply IH; lia.
Qed.

Lemma hideMatch_shrinks (s repl rest : string) :
  hideMatch s = Some (repl, rest) -> String.length rest < String.length s.
Proof.
  intros H. apply hideMatch_Some in H as (c & run & -> & _).
  cbn [String.length]. rewrite append_length. cbn [String.length]. lia.
Qed.

Lemma showMatch_shrinks (s repl rest : string) :
  showMatch s = Some (repl, rest) -> String.length rest < String.length s.
Proof.
  destruct s as [|c s]; [discriminate |]. cbn [showMatch].
  destruct (Ascii.eqb c DOLLAR); [| discriminate].
  destruct (span _ s) as [run after] eqn:E.
  destruct run as [|r run]; [discriminate |].
  destruct after as [|p after]; [discriminate |].
  destruct (Ascii.eqb p LPAREN); [| discriminate].
  intros [= _ <-]. apply span_spec in E as [-> _].
  cbn [String.length]. rewrite append_length. cbn [String.length]. lia.
Qed.

Lemma hideMatch_call (c : ascii) (run rest : string) :
  c = HASH \/ c = DOLLAR ->
  run <> EmptyString ->
  allChars (fun x => isWord x || Ascii.eqb x DOT) run = true ->
  hideMatch (String c (run +:+ String LPAREN rest))
  = Some (String DOLLAR
            (mapChars (fun x => if Ascii.eqb x DOT then DOLLAR else x) run
             +:+ String LPAREN EmptyString),
          rest).
Proof.
  intros Hc Hne Hall. cbn [hideMatch].
  replace (Ascii.eqb c HASH || Ascii.eqb c DOLLAR) with true
    by (destruct Hc as [-> | ->]; reflexivity).
  rewrite (span_append _ run (String LPAREN rest) Hall eq_refl).
  destruct run as [|r run]; [contradiction |]. reflexivity.
Qed.

Lemma showMatch_call (run rest : string) :
  run <> EmptyString ->
  allChars (fun x => isWord x || Ascii.eqb x DOLLAR) run = true ->
  showMatch (String DOLLAR (run +:+ String LPAREN rest))
  = Some (String HASH
            (mapChars (fun x => if Ascii.eqb x DOLLAR then DOT else x) run
             +:+ String LPAREN EmptyString),
          rest).
Proof.
  intros Hne Hall. cbn [showMatch]. rewrite Ascii.eqb_refl.
  rewrite (span_append _ run (String LPAREN rest) Hall eq_refl).
  destruct run as [|r run]; [contradiction |]. reflexivity.
Qed.

(** X16.  The replacement that [processScript] applies before compiling
    hides every scriptor call: a [#] or [$] followed by a run of word
    characters and dots and an opening parenthesis becomes [$], the run
    with every dot turned into [$], and the parenthesis, and the search
    goes on after it; a character other than [#] and [$] stays.  The
    replacement applied after formatting turns [$], a run of word
    characters and [$], and a parenthesis into [#], the run with every [$]
    turned into a dot, and the parenthesis.  On a text without [$] the
    second undoes the first, and the hidden text has the length of the
    original. *)
Theorem scriptors_come_back :
  (forall c run rest,
      c = HASH \/ c = DOLLAR ->
      run <> EmptyString ->
      allChars (fun x => isWord x || Ascii.eqb x DOT) run = true ->
      hideScriptors (String c (run +:+ String LPAREN rest))
      = String DOLLAR
          (mapChars (fun x => if Ascii.eqb x DOT then DOLLAR else x) run
           +:+ String LPAREN (hideScriptors rest)))
  /\ (forall c s,
         c <> HASH -> c <> DOLLAR ->
         hideScriptors (String c s) = String c (hideScriptors s))
  /\ (forall run rest,
         run <> EmptyString ->
         allChars (fun x => isWord x || Ascii.eqb x DOLLAR) run = true ->
         showScriptors (String DOLLAR (run +:+ String LPAREN rest))
         = String HASH
             (mapChars (fun x => if Ascii.eqb x DOLLAR then DOT else x) run
              +:+ String LPAREN (showScriptors rest)))
  /\ (forall script,
         hasChar DOLLAR script = false ->
         showScriptors (hideScriptors script) = script
         /\ String.length (hideScriptors script) = String.length script).
Proof.
  split; [| split; [| split]].
  - intros c run rest Hc Hne Hall. unfold hideScriptors.
    cbn [String.length replaceAll].
    rewrite (hideMatch_call c run rest Hc Hne Hall).
    rewrite (replaceAll_fuel hideMatch hideMatch_shrinks _ (String.length rest) rest).
    + rewrite append_cons, append_assoc, append_cons. reflexivity.
    + rewrite append_length. cbn [String.length]. lia.
    + lia.
  - intros c s Hh Hd. unfold hideScriptors. cbn [String.length replaceAll].
    rewrite hideMatch_plain; [reflexivity |].
    apply andb_true_iff. split; apply negb_true_iff, Ascii.eqb_neq; assumption.
  - intros run rest Hne Hall. unfold showScriptors.
    cbn [String.length replaceAll].
    rewrite (showMatch_call run rest Hne Hall).
    rewrite (replaceAll_fuel showMatch showMatch_shrinks _ (String.length rest) rest).
    + rewrite append_cons, append_assoc, append_cons. reflexivity.
    + rewrite append_length. cbn [String.length]. lia.
    + lia.
  - intros script Hd. unfold showScriptors, hideScriptors.
    destruct (hide_then_show (String.length script) (String.length script) script)
      as [Hl Hs]; [lia | lia | exact Hd |].
    split; [| exact Hl]. rewrite Hl. exact Hs.
Qed.

Lemma scriptors_come_back_witness :
  hideScriptors (String HASH ("fs.scripts.trust" +:+ String LPAREN ") + 1"))
  = String DOLLAR ("fs$scripts$trust" +:+ String LPAREN (hideScriptors ") + 1"))
  /\ hideScriptors "return #fs.scripts.trust() + #ms.x.y({a:1})"
     = "return $fs$scripts$trust() + $ms$x$y({a:1})"
  /\ showScriptors (hideScriptors "return #fs.scripts.trust() + #ms.x.y({a:1})")
     = "return #fs.scripts.trust() + #ms.x.y({a:1})".
Proof.
  destruct scriptors_come_back as (Hh & _ & _ & Hb).
  split; [| split].
  - apply (Hh HASH "fs.scripts.trust" ") + 1");
      [now left | discriminate | reflexivity].
  - reflexivity.
  - apply (Hb "return #fs.scripts.trust() + #ms.x.y({a:1})"). reflexivity.
Defined.

(** ** The whole preparation, and its undoing *)









